(** * Gemini Blog Weaver: the generation pipeline and its UI state

    A shallow embedding of [services/geminiService.ts] (the response parser,
    the image generator and the content generator), of [types.ts] and of the
    topic-driven handler of [App.tsx], with the properties of the
    specification stated and proved about it.

    - JavaScript strings are sequences of UTF-16 code units.
    - Run-time values are the values [JSON.parse] can produce, and
      [undefined]; a number is kept as the exact decimal of its literal,
      which is all [ToBoolean] needs.
    - [String.prototype.match] is a backtracking matcher run on the fence
      pattern as data; [JSON.parse] is a recursive-descent parser for the
      grammar of ECMA-404.
    - [try]/[catch] is an operator on completions, so that what a [catch]
      block sees is what the code lets it see.
    - The two upstream capabilities and the clock are fields of an
      environment; every upstream call is appended to a log.  The text of
      a response may be [undefined].
    - The asynchronous handler of [App.tsx] is cut at its [await] into the
      part that runs on submission and the part that runs on completion.
    - In a session a handler reads the state cells as they were at the
      render that put it on the screen, and writes the cells as they are.
    - Console output is not modelled, but for the string conversion that
      the log line of [generateImage] applies to its prompt, which can
      throw. *)

From Stdlib Require Import String Ascii Numbers.DecimalString.
From Stdlib Require Import List NArith ZArith Bool Lia.
Import ListNotations.

Set Implicit Arguments.

(* ================================================================= *)
(** ** JavaScript strings *)

Module JsString.

(** A UTF-16 code unit. *)
Definition char := N.
Definition jsstring := list char.

(** An ASCII literal as code units. *)
Definition lit (s : string) : jsstring :=
  map N_of_ascii (list_ascii_of_string s).

(** A literal in which every apostrophe stands for a double quote. *)
Definition litq (s : string) : jsstring :=
  map (fun c => if N.eqb c 39 then 34%N else c) (lit s).

Fixpoint eqb (a b : jsstring) : bool :=
  match a, b with
  | [], [] => true
  | x :: a', y :: b' => N.eqb x y && eqb a' b'
  | _, _ => false
  end.

(** [WhiteSpace] and [LineTerminator] of ECMA-262: what [trim] removes
    and what the class [\s] of a regular expression matches. *)
Definition isWhiteSpace (c : char) : bool :=
  (N.leb 9 c && N.leb c 13) || N.eqb c 32 || N.eqb c 160 || N.eqb c 5760
  || (N.leb 8192 c && N.leb c 8202) || N.eqb c 8232 || N.eqb c 8233
  || N.eqb c 8239 || N.eqb c 8287 || N.eqb c 12288 || N.eqb c 65279.

Fixpoint trimStart (s : jsstring) : jsstring :=
  match s with
  | c :: s' => if isWhiteSpace c then trimStart s' else s
  | [] => []
  end.

(** [trimEnd]: what follows the last character that is not white space
    is dropped. *)
Fixpoint trimEnd (s : jsstring) : jsstring :=
  match s with
  | [] => []
  | c :: s' =>
      match trimEnd s' with
      | [] => if isWhiteSpace c then [] else [c]
      | t => c :: t
      end
  end.

(** [String.prototype.trim] *)
Definition trim (s : jsstring) : jsstring := trimEnd (trimStart s).

(** [String.prototype.startsWith] *)
Fixpoint startsWith (s p : jsstring) {struct p} : bool :=
  match p with
  | [] => true
  | x :: p' =>
      match s with
      | y :: s' => N.eqb x y && startsWith s' p'
      | [] => false
      end
  end.

(** [String.prototype.includes] *)
Fixpoint includes (s p : jsstring) : bool :=
  startsWith s p ||
  match s with
  | [] => false
  | _ :: s' => includes s' p
  end.

(** [String.prototype.substring] on non-negative integer arguments: both
    are clamped to the length and swapped when out of order. *)
Definition substring (s : jsstring) (from to : nat) : jsstring :=
  let a := Nat.min from (length s) in
  let b := Nat.min to (length s) in
  firstn (Nat.max a b - Nat.min a b) (skipn (Nat.min a b) s).

(** The decimal representation of an integer, as [Number.prototype.toString]
    gives it for integers. *)
Definition ofZ (z : Z) : jsstring :=
  lit (NilZero.string_of_int (Z.to_int z)).

End JsString.
Import JsString.
Arguments lit s%_string.
Arguments litq s%_string.

(* ================================================================= *)
(** ** Regular expressions

    A backtracking matcher for the fragment of ECMAScript regular
    expressions the program uses: literals, a character class, the dot of
    the [s] flag, greedy [?], greedy [*], lazy [*?] (both on one-character
    atoms), one capture group and the two anchors (no [m] flag).  Choices
    are tried in the order ECMA-262 prescribes and the first complete match
    wins. *)

Module RegExp.

Inductive regex :=
| Begin                         (* ^ *)
| End_                          (* $ *)
| Lit (s : jsstring)            (* a literal string *)
| Opt (r : regex)               (* r? , greedy *)
| Star (p : char -> bool)       (* [p]* , greedy *)
| LazyStar (p : char -> bool)   (* [p]*? *)
| Group (r : regex)             (* ( r ), capture group 1 *)
| Seq (r1 r2 : regex).

Section Matcher.
Variable R : Type.

(** A continuation receives the rest of the input and the capture. *)
Definition cont := jsstring -> option jsstring -> option R.

Fixpoint starGreedy (p : char -> bool) (s : jsstring) (cap : option jsstring)
         (k : cont) : option R :=
  match s with
  | c :: s' =>
      if p c then
        match starGreedy p s' cap k with
        | Some x => Some x
        | None => k s cap
        end
      else k s cap
  | [] => k [] cap
  end.

Fixpoint starLazy (p : char -> bool) (s : jsstring) (cap : option jsstring)
         (k : cont) : option R :=
  match k s cap with
  | Some x => Some x
  | None =>
      match s with
      | c :: s' => if p c then starLazy p s' cap k else None
      | [] => None
      end
  end.

(** [run r atStart s cap k]: match [r] at the front of [s]; [atStart]
    tells whether [s] is the whole input. *)
Fixpoint run (r : regex) (atStart : bool) (s : jsstring)
         (cap : option jsstring) (k : bool -> cont) {struct r} : option R :=
  match r with
  | Begin => if atStart then k atStart s cap else None
  | End_ => match s with [] => k atStart s cap | _ => None end
  | Lit l =>
      if startsWith s l
      then k (atStart && Nat.eqb (length l) 0) (skipn (length l) s) cap
      else None
  | Opt r' =>
      match run r' atStart s cap k with
      | Some x => Some x
      | None => k atStart s cap
      end
  | Star p =>
      starGreedy p s cap
        (fun s' c => k (atStart && Nat.eqb (length s') (length s)) s' c)
  | LazyStar p =>
      starLazy p s cap
        (fun s' c => k (atStart && Nat.eqb (length s') (length s)) s' c)
  | Group r' =>
      run r' atStart s cap
        (fun b s' _ => k b s' (Some (firstn (length s - length s') s)))
  | Seq r1 r2 =>
      run r1 atStart s cap (fun b s' c => run r2 b s' c k)
  end.
End Matcher.

(** The match attempted at one start position. *)
Definition matchAt (r : regex) (atStart : bool) (s : jsstring)
  : option (option jsstring) :=
  run r atStart s None (fun _ _ c => Some c).

(** The search of [RegExp.prototype.exec] without the [g] and [y] flags:
    the leftmost start position with a match. *)
Fixpoint search (r : regex) (atStart : bool) (s : jsstring)
  : option (option jsstring) :=
  match matchAt r atStart s with
  | Some c => Some c
  | None =>
      match s with
      | [] => None
      | _ :: s' => search r false s'
      end
  end.

(** [String.prototype.match] for a regex with one group and no [g] flag:
    [None] is [null], [Some c] is a match whose [[1]] is [c]
    ([None] for [undefined]). *)
Definition match_ (s : jsstring) (r : regex) : option (option jsstring) :=
  search r true s.

End RegExp.
Import RegExp.

(* ================================================================= *)
(** ** Run-time values, exceptions and completions *)

Module Js.

(** The values [JSON.parse] can produce, and [undefined].  A number is
    kept as the decimal [m * 10^e] its literal denotes. *)
#[warnings="-register-all"] Inductive value :=
| VUndefined
| VNull
| VBool (b : bool)
| VNumber (m e : Z)
| VString (s : jsstring)
| VArray (elems : list value)
| VObject (props : list (jsstring * value)).

(** What a [throw] carries: an [Error] object (of any subclass) with its
    message, or a value that is not an instance of [Error]. *)
Inductive thrown :=
| JsError (message : jsstring)
| NonError.

(** How a call ends. *)
Inductive completion (A : Type) :=
| Return (a : A)
| Throw (e : thrown).
Arguments Return {A} a.
Arguments Throw {A} e.

(** The literal [m * 10^e] converts to a double that is [+0] or [-0]:
    it is zero, or at most half the least subnormal, [2^-1075] (the tie
    rounds to even, which is zero). *)
Definition numberIsZero (m e : Z) : bool :=
  Z.eqb m 0 ||
  (Z.ltb e 0 && Z.leb (Z.abs m * 2 ^ 1075) (10 ^ (- e))).

(** [ToBoolean] *)
Definition truthy (v : value) : bool :=
  match v with
  | VUndefined | VNull => false
  | VBool b => b
  | VNumber m e => negb (numberIsZero m e)
  | VString s => negb (Nat.eqb (length s) 0)
  | VArray _ | VObject _ => true
  end.

(** The [typeof] operator. *)
Definition typeof (v : value) : jsstring :=
  match v with
  | VUndefined => lit "undefined"
  | VNull => lit "object"
  | VBool _ => lit "boolean"
  | VNumber _ _ => lit "number"
  | VString _ => lit "string"
  | VArray _ | VObject _ => lit "object"
  end.

Fixpoint lookup (props : list (jsstring * value)) (k : jsstring) : option value :=
  match props with
  | [] => None
  | (k', v) :: rest => if JsString.eqb k' k then Some v else lookup rest k
  end.

(** Defining a property: an existing key keeps its place and takes the
    new value, a new key goes last. *)
Fixpoint define (props : list (jsstring * value)) (k : jsstring) (v : value)
  : list (jsstring * value) :=
  match props with
  | [] => [(k, v)]
  | (k', v') :: rest =>
      if JsString.eqb k' k then (k', v) :: rest else (k', v') :: define rest k v
  end.

(** Reading the property [k] of [v], for a name [k] that no built-in
    prototype defines and that is neither [length] nor an index (as are
    the names the program reads: [title], [content], [imagePrompt]).  On
    [null] and [undefined] the read throws a [TypeError]; its message is
    the engine's, [typeErrorMessage] stands for it. *)
Definition typeErrorMessage : jsstring :=
  lit "Cannot read properties of null".

Definition get (v : value) (k : jsstring) : completion value :=
  match v with
  | VUndefined | VNull => Throw (JsError typeErrorMessage)
  | VObject props =>
      match lookup props k with
      | Some x => Return x
      | None => Return VUndefined
      end
  | _ => Return VUndefined
  end.

(** The string conversion a template literal applies to [v], as far as
    it can throw.  A primitive always converts.  An object is converted
    through its [toString] and then its [valueOf]: without an own
    [toString] property the inherited one answers; with one, whose value
    comes from JSON and so is no function, neither method yields a
    primitive and a [TypeError] is thrown.  An array is joined, each
    element other than [null] and [undefined] being converted in turn. *)
Fixpoint toStringThrows (v : value) : bool :=
  match v with
  | VObject props =>
      match lookup props (lit "toString") with
      | Some _ => true
      | None => false
      end
  | VArray elems =>
      (fix anyThrows (l : list value) : bool :=
         match l with
         | [] => false
         | x :: rest => toStringThrows x || anyThrows rest
         end) elems
  | _ => false
  end.

(** The message of that [TypeError] is the engine's;
    [conversionErrorMessage] stands for it. *)
Definition conversionErrorMessage : jsstring :=
  lit "Cannot convert object to primitive value".

End Js.
Import Js.

(* ================================================================= *)
(** ** JSON.parse

    The grammar of ECMA-404 as a recursive-descent parser.  The fuel bounds
    the number of nested calls; [2 * length s + 1] is always enough
    ([parseValue_fuel] below). *)

Module JSON.

Inductive result (A : Type) :=
| Ok (a : A) (rest : jsstring)
| SyntaxError
| OutOfFuel.
Arguments Ok {A} a rest.
Arguments SyntaxError {A}.
Arguments OutOfFuel {A}.

(** JSON white space: tab, line feed, carriage return, space. *)
Definition isWs (c : char) : bool :=
  N.eqb c 9 || N.eqb c 10 || N.eqb c 13 || N.eqb c 32.

Fixpoint skipWs (s : jsstring) : jsstring :=
  match s with
  | c :: s' => if isWs c then skipWs s' else s
  | [] => []
  end.

Definition isDigit (c : char) : bool := N.leb 48 c && N.leb c 57.

Definition hexValue (c : char) : option N :=
  if isDigit c then Some (c - 48)%N
  else if N.leb 65 c && N.leb c 70 then Some (c - 55)%N
  else if N.leb 97 c && N.leb c 102 then Some (c - 87)%N
  else None.

(** The character a one-letter escape denotes. *)
Definition escape (c : char) : option char :=
  if N.eqb c 34 then Some 34%N            (* quote *)
  else if N.eqb c 92 then Some 92%N       (* backslash *)
  else if N.eqb c 47 then Some 47%N       (* slash *)
  else if N.eqb c 98 then Some 8%N        (* b *)
  else if N.eqb c 102 then Some 12%N      (* f *)
  else if N.eqb c 110 then Some 10%N      (* n *)
  else if N.eqb c 114 then Some 13%N      (* r *)
  else if N.eqb c 116 then Some 9%N       (* t *)
  else None.

(** The characters of a string literal after its opening quote, up to
    and including the closing quote. *)
Fixpoint parseChars (s : jsstring) (acc : jsstring) : option (jsstring * jsstring) :=
  match s with
  | [] => None
  | c :: s1 =>
      if N.eqb c 34 then Some (rev acc, s1)
      else if N.eqb c 92 then
        match s1 with
        | [] => None
        | e :: s2 =>
            if N.eqb e 117 then
              match s2 with
              | h1 :: h2 :: h3 :: h4 :: s3 =>
                  match hexValue h1, hexValue h2, hexValue h3, hexValue h4 with
                  | Some a, Some b, Some c', Some d =>
                      parseChars s3 ((((a * 16 + b) * 16 + c') * 16 + d)%N :: acc)
                  | _, _, _, _ => None
                  end
              | _ => None
              end
            else
              match escape e with
              | Some x => parseChars s2 (x :: acc)
              | None => None
              end
        end
      else if N.ltb c 32 then None
      else parseChars s1 (c :: acc)
  end.

(** A maximal run of digits: its value, its length and the rest. *)
Fixpoint spanDigits (s : jsstring) (val : Z) (len : nat) : Z * nat * jsstring :=
  match s with
  | c :: s' =>
      if isDigit c
      then spanDigits s' (val * 10 + Z.of_N (c - 48)) (S len)
      else (val, len, s)
  | [] => (val, len, [])
  end.

(** The input after the character [c], when it starts with [c]. *)
Definition eat (c : char) (s : jsstring) : option jsstring :=
  match s with
  | x :: r => if N.eqb x c then Some r else None
  | [] => None
  end.
Arguments eat c%_N s.

(** A number: an optional minus sign; a zero, or a non-zero digit and
    more digits; an optional fraction (a dot and at least one digit); an
    optional exponent (e or E, an optional sign, at least one digit).
    The result is the mantissa, the decimal exponent and the rest. *)
Definition parseSign (s : jsstring) : bool * jsstring :=
  match eat 45 s with
  | Some r => (true, r)
  | None => (false, s)
  end.

Definition parseInt (s : jsstring) : option (Z * jsstring) :=
  match eat 48 s with
  | Some r => Some (0%Z, r)
  | None =>
      match s with
      | c :: _ =>
          if isDigit c
          then let '(v, _, r) := spanDigits s 0 0 in Some (v, r)
          else None
      | [] => None
      end
  end.

Definition parseFraction (int : Z) (s : jsstring) : option (Z * nat * jsstring) :=
  match eat 46 s with
  | Some r =>
      let '(v, n, r') := spanDigits r int 0 in
      if Nat.eqb n 0 then None else Some (v, n, r')
  | None => Some (int, 0%nat, s)
  end.

Definition parseExponent (s : jsstring) : option (Z * jsstring) :=
  match (match eat 101 s with Some r => Some r | None => eat 69 s end) with
  | Some r =>
      let (eneg, r0) :=
        match eat 45 r with
        | Some r' => (true, r')
        | None =>
            match eat 43 r with
            | Some r' => (false, r')
            | None => (false, r)
            end
        end in
      let '(v, k, r1) := spanDigits r0 0 0 in
      if Nat.eqb k 0 then None else Some ((if eneg then - v else v)%Z, r1)
  | None => Some (0%Z, s)
  end.

Definition parseNumber (s : jsstring) : option (Z * Z * jsstring) :=
  let (neg, s0) := parseSign s in
  match parseInt s0 with
  | None => None
  | Some (i, s1) =>
      match parseFraction i s1 with
      | None => None
      | Some (m, n, s2) =>
          match parseExponent s2 with
          | None => None
          | Some (e, s3) =>
              Some ((if neg then - m else m)%Z, (e - Z.of_nat n)%Z, s3)
          end
      end
  end.

Fixpoint parseValue (fuel : nat) (s : jsstring) : result value :=
  match fuel with
  | O => OutOfFuel
  | S fuel' =>
      match skipWs s with
      | [] => SyntaxError
      | c :: r =>
          if N.eqb c 123 then                       (* { *)
            match eat 125 (skipWs r) with
            | Some r' => Ok (VObject []) r'
            | None => parseMembers fuel' [] r
            end
          else if N.eqb c 91 then                   (* [ *)
            match eat 93 (skipWs r) with
            | Some r' => Ok (VArray []) r'
            | None => parseElements fuel' [] r
            end
          else if N.eqb c 34 then
            match parseChars r [] with
            | Some (str, r') => Ok (VString str) r'
            | None => SyntaxError
            end
          else if startsWith (c :: r) (lit "true") then Ok (VBool true) (skipn 4 (c :: r))
          else if startsWith (c :: r) (lit "false") then Ok (VBool false) (skipn 5 (c :: r))
          else if startsWith (c :: r) (lit "null") then Ok VNull (skipn 4 (c :: r))
          else
            match parseNumber (c :: r) with
            | Some (m, e, r') => Ok (VNumber m e) r'
            | None => SyntaxError
            end
      end
  end

(** The elements of an array after its opening bracket, the array being
    known not to be empty. *)
with parseElements (fuel : nat) (acc : list value) (s : jsstring) : result value :=
  match fuel with
  | O => OutOfFuel
  | S fuel' =>
      match parseValue fuel' s with
      | Ok v r =>
          match eat 44 (skipWs r) with
          | Some r' => parseElements fuel' (v :: acc) r'
          | None =>
              match eat 93 (skipWs r) with
              | Some r' => Ok (VArray (rev (v :: acc))) r'
              | None => SyntaxError
              end
          end
      | SyntaxError => SyntaxError
      | OutOfFuel => OutOfFuel
      end
  end

(** The members of an object after its opening brace, likewise. *)
with parseMembers (fuel : nat) (acc : list (jsstring * value)) (s : jsstring)
     : result value :=
  match fuel with
  | O => OutOfFuel
  | S fuel' =>
      match eat 34 (skipWs s) with
      | Some r =>
          match parseChars r [] with
          | Some (key, r1) =>
              match eat 58 (skipWs r1) with
              | Some r2 =>
                  match parseValue fuel' r2 with
                  | Ok v r3 =>
                      match eat 44 (skipWs r3) with
                      | Some r4 => parseMembers fuel' (define acc key v) r4
                      | None =>
                          match eat 125 (skipWs r3) with
                          | Some r4 => Ok (VObject (define acc key v)) r4
                          | None => SyntaxError
                          end
                      end
                  | SyntaxError => SyntaxError
                  | OutOfFuel => OutOfFuel
                  end
              | None => SyntaxError
              end
          | None => SyntaxError
          end
      | None => SyntaxError
      end
  end.

(** [JSON.parse(text)]: [None] stands for the [SyntaxError] it throws. *)
Definition parse (text : jsstring) : option value :=
  match parseValue (2 * length text + 1) text with
  | Ok v rest =>
      match skipWs rest with
      | [] => Some v
      | _ => None
      end
  | _ => None
  end.

End JSON.

(* ================================================================= *)
(** ** types.ts *)

Module BlogPostContent.
(** The interface through which the program reads the parsed response.
    [title] and [content] are checked to be strings before the cast;
    [imagePrompt] is whatever the response carries ([VUndefined] when
    absent). *)
Record t := Build {
  title : jsstring;
  content : jsstring;
  imagePrompt : value
}.
End BlogPostContent.

Module BlogPost.
Record t := Build {
  id : jsstring;
  title : jsstring;
  content : jsstring;
  excerpt : jsstring;
  date : jsstring;
  imageUrl : option jsstring
}.
End BlogPost.

(* ================================================================= *)
(** ** services/geminiService.ts *)

Module GeminiService.

Definition textModelName : jsstring := lit "gemini-2.5-flash-preview-04-17".
Definition imageModelName : jsstring := lit "imagen-3.0-generate-002".

(** *** The response of the image capability, as the program reads it *)

Record Image := { imageBytes : option jsstring }.
Record GeneratedImage := { image : option Image }.
Record GenerateImagesResponse := {
  generatedImages : option (list GeneratedImage)
}.

(** *** The environment: the two upstream capabilities and the clock *)

Record Env := {
  (** [ai.models.generateContent]: the [text] of the response, which is
      [undefined] ([None]) when the response carries no text, or what the
      call throws. *)
  generateContent : jsstring -> completion (option jsstring);
  (** [ai.models.generateImages] *)
  generateImages : value -> completion GenerateImagesResponse;
  (** [Date.now()] *)
  Date_now : Z;
  (** [new Date().toLocaleDateString(undefined, ...)] *)
  toLocaleDateString : jsstring
}.

(** A call made to an upstream capability: the model and the prompt. *)
Inductive Call :=
| CallGenerateContent (model contents : jsstring)
| CallGenerateImages (model : jsstring) (prompt : value).

(** *** Asynchronous computations: a completion and the log of calls *)

Definition Async (A : Type) := list Call -> completion A * list Call.

Definition ret {A} (a : A) : Async A := fun log => (Return a, log).
Definition throw {A} (e : thrown) : Async A := fun log => (Throw e, log).
Definition lift {A} (c : completion A) : Async A := fun log => (c, log).

Definition bind {A B} (m : Async A) (f : A -> Async B) : Async B :=
  fun log =>
    match m log with
    | (Return a, log') => f a log'
    | (Throw e, log') => (Throw e, log')
    end.

(** [try { m } catch (error) { h error }] *)
Definition tryCatch {A} (m : Async A) (h : thrown -> Async A) : Async A :=
  fun log =>
    match m log with
    | (Return a, log') => (Return a, log')
    | (Throw e, log') => h e log'
    end.

Definition callGenerateContent (env : Env) (contents : jsstring)
  : Async (option jsstring) :=
  fun log =>
    (generateContent env contents,
     log ++ [CallGenerateContent textModelName contents]).

Definition callGenerateImages (env : Env) (prompt : value)
  : Async GenerateImagesResponse :=
  fun log =>
    (generateImages env prompt,
     log ++ [CallGenerateImages imageModelName prompt]).

Declare Scope async_scope.
Delimit Scope async_scope with async.
Notation "x <- m ;; k" := (bind m (fun x => k))
  (at level 61, m at next level, right associativity) : async_scope.

(** The same two operators for code that makes no call. *)
Definition bindC {A B} (c : completion A) (f : A -> completion B) : completion B :=
  match c with
  | Return a => f a
  | Throw e => Throw e
  end.

Definition tryCatchC {A} (c : completion A) (h : thrown -> completion A)
  : completion A :=
  match c with
  | Return a => Return a
  | Throw e => h e
  end.

(** *** parseGeminiJsonResponse *)

Definition backticks : jsstring := [96; 96; 96]%N.

Definition sequence (rs : list regex) : regex := fold_right Seq (Lit []) rs.

(** The fence pattern: start, three backticks, an optional json tag,
    white space, an optional line feed, the lazily captured payload (any
    characters, the [s] flag is set), an optional line feed, white space,
    three backticks, end. *)
Definition fenceRegex : regex :=
  sequence [ Begin; Lit backticks; Opt (Lit (lit "json")); Star isWhiteSpace;
             Opt (Lit [10%N]); Group (LazyStar (fun _ => true));
             Opt (Lit [10%N]); Star isWhiteSpace; Lit backticks; End_ ].

Definition structureErrorMessage : jsstring :=
  lit "AI response has an invalid data structure for blog content.".

Definition parseErrorMessage : jsstring :=
  lit "Failed to parse AI response for blog content. The response was not valid JSON.".

(** The message of the [SyntaxError] of [JSON.parse] is the engine's;
    [syntaxErrorMessage] stands for it. *)
Definition syntaxErrorMessage : jsstring := lit "Unexpected token in JSON".

Definition stringOf (v : value) : jsstring :=
  match v with
  | VString s => s
  | _ => []
  end.

(** [parsed as BlogPostContent]: the object read through the interface. *)
Definition asBlogPostContent (parsed : value) : BlogPostContent.t :=
  let field k :=
    match Js.get parsed (lit k) with
    | Return v => v
    | Throw _ => VUndefined
    end in
  BlogPostContent.Build (stringOf (field "title"%string))
                        (stringOf (field "content"%string))
                        (field "imagePrompt"%string).

(** Lines 10-15: the text handed to [JSON.parse]. *)
Definition jsonText (responseText : jsstring) : jsstring :=
  let jsonStr := trim responseText in
  match match_ jsonStr fenceRegex with
  | Some (Some group1) =>
      if negb (Nat.eqb (length group1) 0) then trim group1 else jsonStr
  | _ => jsonStr
  end.

(** [typeof parsed.title === 'string' && typeof parsed.content === 'string'] *)
Definition hasStringTitleAndContent (parsed : value) : completion bool :=
  bindC (Js.get parsed (lit "title")) (fun title =>
    if JsString.eqb (typeof title) (lit "string") then
      bindC (Js.get parsed (lit "content")) (fun content =>
        Return (JsString.eqb (typeof content) (lit "string")))
    else Return false).

Definition parseGeminiJsonResponse (responseText : jsstring)
  : completion BlogPostContent.t :=
  let jsonStr := jsonText responseText in
  tryCatchC
    (bindC (match JSON.parse jsonStr with
            | Some parsed => Return parsed
            | None => Throw (JsError syntaxErrorMessage)
            end) (fun parsed =>
     bindC (hasStringTitleAndContent parsed) (fun ok =>
       if ok then Return (asBlogPostContent parsed)
       else Throw (JsError structureErrorMessage))))
    (fun e => Throw (JsError parseErrorMessage)).

(** [parseGeminiJsonResponse(response.text)], as lines 73 and 110 call
    it.  On a response without text the argument is [undefined], and
    [responseText.trim()] of line 10, which is outside the [try], throws a
    [TypeError]; its message is the engine's, [undefinedTextMessage]
    stands for it. *)
Definition undefinedTextMessage : jsstring :=
  lit "Cannot read properties of undefined (reading 'trim')".

Definition parseResponseText (text : option jsstring) : completion BlogPostContent.t :=
  match text with
  | Some responseText => parseGeminiJsonResponse responseText
  | None => Throw (JsError undefinedTextMessage)
  end.

(** *** generateImage *)

Definition apiKeyMarker : jsstring := lit "API key not valid".

Definition imageKeyErrorMessage : jsstring :=
  lit "Invalid API Key for image generation. Please ensure your Gemini API key is correctly configured.".

Definition dataUriPrefix : jsstring := lit "data:image/jpeg;base64,".

(** [response.generatedImages && response.generatedImages.length > 0 &&
    response.generatedImages[0].image?.imageBytes], when truthy. *)
Definition firstImageBytes (response : GenerateImagesResponse) : option jsstring :=
  match generatedImages response with
  | Some (first :: _) =>
      match image first with
      | Some img =>
          match imageBytes img with
          | Some bytes => if Nat.eqb (length bytes) 0 then None else Some bytes
          | None => None
          end
      | None => None
      end
  | _ => None
  end.

(** Line 36: the log line is a template literal, which converts the
    prompt to a string; that is the first statement of the [try]. *)
Definition logPrompt (prompt : value) : Async unit :=
  if toStringThrows prompt then throw (JsError conversionErrorMessage) else ret tt.

Definition generateImage (env : Env) (prompt : value) : Async (option jsstring) :=
  if negb (truthy prompt) then ret None
  else
    tryCatch
      (logged <- logPrompt prompt ;;
       response <- callGenerateImages env prompt ;;
       match firstImageBytes response with
       | Some base64ImageBytes => ret (Some (dataUriPrefix ++ base64ImageBytes))
       | None => ret None
       end)%async
      (fun error =>
         match error with
         | JsError message =>
             if includes message apiKeyMarker
             then throw (JsError imageKeyErrorMessage)
             else ret None
         | NonError => ret None
         end).

(** *** generateBlogPostContent *)

Definition blogPrompt (topic : jsstring) : jsstring :=
  litq "Generate a compelling blog post about '" ++ topic ++
  litq "'. The post should have a captivating title, well-structured content (around 250-400 words), and a concise, descriptive prompt for an image that would visually represent the blog post. Format the response as a JSON object with three keys: 'title' (string), 'content' (string), and 'imagePrompt' (string for generating an image). For example: {'title': 'The Future of Renewable Energy', 'content': 'Renewable energy is rapidly transforming our world...', 'imagePrompt': 'Futuristic cityscape powered by solar panels and wind turbines under a clear blue sky'}".

Definition keyErrorMessage : jsstring :=
  lit "Invalid API Key. Please ensure your Gemini API key is correctly configured.".

Definition unknownErrorMessage : jsstring :=
  lit "An unknown error occurred while generating blog post content.".

(** [BlogPostContent & { imageUrl?: string }] *)
Record Generated := {
  blogContent : BlogPostContent.t;
  imageUrl : option jsstring
}.

Definition generateBlogPostContent (env : Env) (topic : jsstring) : Async Generated :=
  let prompt := blogPrompt topic in
  tryCatch
    (text <- callGenerateContent env prompt ;;
     blogContent <- lift (parseResponseText text) ;;
     imageUrl <-
       (if truthy (BlogPostContent.imagePrompt blogContent)
        then generateImage env (BlogPostContent.imagePrompt blogContent)
        else ret None) ;;
     ret {| blogContent := blogContent; imageUrl := imageUrl |})%async
    (fun error =>
       match error with
       | JsError message =>
           if includes message apiKeyMarker
           then throw (JsError keyErrorMessage)
           else throw (JsError (lit "Gemini API error: " ++ message))
       | NonError => throw (JsError unknownErrorMessage)
       end).

End GeminiService.
Import GeminiService.

(* ================================================================= *)
(** ** App.tsx: the state of the component and the topic-driven handler *)

Module App.

(** The six [useState] cells. *)
Record AppState := {
  posts : list BlogPost.t;
  selectedPost : option BlogPost.t;
  isLoading : bool;
  error : option jsstring;
  topic : jsstring;
  isGenerating : bool
}.

Definition setPosts (f : list BlogPost.t -> list BlogPost.t) (st : AppState) :=
  {| posts := f (posts st); selectedPost := selectedPost st;
     isLoading := isLoading st; error := error st; topic := topic st;
     isGenerating := isGenerating st |}.

Definition setError (e : option jsstring) (st : AppState) :=
  {| posts := posts st; selectedPost := selectedPost st;
     isLoading := isLoading st; error := e; topic := topic st;
     isGenerating := isGenerating st |}.

Definition setTopic (t : jsstring) (st : AppState) :=
  {| posts := posts st; selectedPost := selectedPost st;
     isLoading := isLoading st; error := error st; topic := t;
     isGenerating := isGenerating st |}.

Definition setIsGenerating (b : bool) (st : AppState) :=
  {| posts := posts st; selectedPost := selectedPost st;
     isLoading := isLoading st; error := error st; topic := topic st;
     isGenerating := b |}.

Definition unknownPostErrorMessage : jsstring :=
  lit "An unknown error occurred while generating the post.".

(** Lines 56-63: the post built from a generation result. *)
Definition newPost (env : Env) (data : Generated) : BlogPost.t :=
  let content := BlogPostContent.content (blogContent data) in
  {| BlogPost.id := ofZ (Date_now env);
     BlogPost.title := BlogPostContent.title (blogContent data);
     BlogPost.content := content;
     BlogPost.excerpt := substring content 0 150 ++ lit "...";
     BlogPost.date := toLocaleDateString env;
     BlogPost.imageUrl := imageUrl data |}.

(** [handleGeneratePost] up to its [await]: the guard, the two state
    updates, and the topic handed to the Content Generator ([None] when
    the handler returned at the guard). *)
Definition handleGeneratePost_begin (st : AppState) : AppState * option jsstring :=
  if Nat.eqb (length (trim (topic st))) 0 || isGenerating st then (st, None)
  else (setError None (setIsGenerating true st), Some (topic st)).

(** [handleGeneratePost] from the completion of the awaited call on:
    the rest of [try], [catch] and [finally]. *)
Definition handleGeneratePost_settle (env : Env) (outcome : completion Generated)
           (st : AppState) : AppState :=
  let st' :=
    match outcome with
    | Return data =>
        setTopic [] (setPosts (fun prevPosts => newPost env data :: prevPosts) st)
    | Throw (JsError message) => setError (Some message) st
    | Throw NonError => setError (Some unknownPostErrorMessage) st
    end in
  setIsGenerating false st'.

(** One whole submission, with nothing else happening during the call. *)
Definition handleGeneratePost (env : Env) (st : AppState) (log : list Call)
  : AppState * list Call :=
  match handleGeneratePost_begin st with
  | (st1, None) => (st1, log)
  | (st1, Some topic) =>
      let (outcome, log') := generateBlogPostContent env topic log in
      (handleGeneratePost_settle env outcome st1, log')
  end.

(** What can happen to the component while it is mounted. *)
Inductive Event :=
| Submit                                     (* the form is submitted *)
| Settled (outcome : completion Generated)   (* the awaited call completes *)
| TopicChanged (text : jsstring)             (* the input's onChange *)
| SelectPost (post : BlogPost.t)             (* handleSelectPost *)
| GoBackToList.                              (* handleGoBackToList *)

Definition step (env : Env) (st : AppState) (ev : Event) : AppState :=
  match ev with
  | Submit => fst (handleGeneratePost_begin st)
  | Settled outcome => handleGeneratePost_settle env outcome st
  | TopicChanged text => setTopic text st
  | SelectPost post =>
      {| posts := posts st; selectedPost := Some post;
         isLoading := isLoading st; error := error st; topic := topic st;
         isGenerating := isGenerating st |}
  | GoBackToList =>
      {| posts := posts st; selectedPost := None;
         isLoading := isLoading st; error := error st; topic := topic st;
         isGenerating := isGenerating st |}
  end.

End App.
Import App.

(* ================================================================= *)
(** ** services/geminiService.ts: the welcome variant *)

Module WelcomeService.

Definition welcomeTopic : jsstring :=
  lit "the joy of writing and sharing ideas online".

Definition welcomePrompt : jsstring :=
  litq "Generate a short, welcoming blog post about '" ++ welcomeTopic ++
  litq "'. The post should have a friendly title and around 100-150 words of engaging content. Format the response as a JSON object with two keys: 'title' (string) and 'content' (string). Example: {'title': 'Welcome to Your New Blog!', 'content': 'Sharing your thoughts online can be an incredibly rewarding experience. This space is yours to fill with ideas, stories, and insights. Happy writing!'}".

Definition welcomeErrorPrefix : jsstring := lit "Failed to generate welcome post: ".

Definition unknownWelcomeErrorMessage : jsstring :=
  lit "An unknown error occurred while generating the welcome post.".

Definition generateInitialWelcomePost (env : Env) : Async BlogPostContent.t :=
  tryCatch
    (response <- callGenerateContent env welcomePrompt ;;
     lift (parseResponseText response))%async
    (fun error =>
       match error with
       | JsError message => throw (JsError (welcomeErrorPrefix ++ message))
       | NonError => throw (JsError unknownWelcomeErrorMessage)
       end).

End WelcomeService.
Import WelcomeService.

(* ================================================================= *)
(** ** App.tsx: the welcome post loaded on mount *)

Module AppMount.

(** The values the six [useState] calls start with. *)
Definition initialState : AppState :=
  {| posts := []; selectedPost := None; isLoading := false; error := None;
     topic := []; isGenerating := false |}.

Definition setIsLoading (b : bool) (st : AppState) :=
  {| posts := posts st; selectedPost := selectedPost st;
     isLoading := b; error := error st; topic := topic st;
     isGenerating := isGenerating st |}.

(** [process.env.API_KEY], as a condition: a string that is not empty. *)
Definition keyConfigured (apiKey : option jsstring) : bool :=
  match apiKey with
  | Some key => negb (Nat.eqb (length key) 0)
  | None => false
  end.

(** Lines 25-32: the welcome post; it has no [imageUrl] property. *)
Definition welcomePost (env : Env) (data : BlogPostContent.t) : BlogPost.t :=
  {| BlogPost.id := lit "initial-" ++ ofZ (Date_now env);
     BlogPost.title := BlogPostContent.title data;
     BlogPost.content := BlogPostContent.content data;
     BlogPost.excerpt := substring (BlogPostContent.content data) 0 150 ++ lit "...";
     BlogPost.date := toLocaleDateString env;
     BlogPost.imageUrl := None |}.

(** [loadInitialPost] up to its [await]; the boolean tells whether the
    call was started. *)
Definition loadInitialPost_begin (apiKey : option jsstring) (st : AppState)
  : AppState * bool :=
  if Nat.eqb (length (posts st)) 0 && keyConfigured apiKey
  then (setError None (setIsLoading true st), true)
  else (st, false).

(** [loadInitialPost] from the completion of the awaited call on. *)
Definition loadInitialPost_settle (env : Env) (outcome : completion BlogPostContent.t)
           (st : AppState) : AppState :=
  let st' :=
    match outcome with
    | Return data => setPosts (fun _ => [welcomePost env data]) st
    | Throw _ => st
    end in
  setIsLoading false st'.

(** The whole of [loadInitialPost], with nothing else happening during
    the call. *)
Definition loadInitialPost (env : Env) (apiKey : option jsstring) (st : AppState)
           (log : list Call) : AppState * list Call :=
  match loadInitialPost_begin apiKey st with
  | (st1, false) => (st1, log)
  | (st1, true) =>
      let (outcome, log') := generateInitialWelcomePost env log in
      (loadInitialPost_settle env outcome st1, log')
  end.

End AppMount.
Import AppMount.

(* ================================================================= *)
(** ** App.tsx: what is rendered

    The conditions of the JSX of lines 85-150, as the screen they select.
    The navigation bar, the footer and the styling are left out. *)

Module AppView.

(** The form of lines 102-124. *)
Record FormView := {
  inputValue : jsstring;
  inputDisabled : bool;
  submitDisabled : bool;
  submitLabel : jsstring
}.

Inductive Screen :=
| LoadingScreen
| DetailScreen (post : BlogPost.t)
| ListScreen (form : FormView) (errorBanner : option jsstring)
             (emptyNotice : bool) (cards : list BlogPost.t).

(** A string or [null] used as a condition. *)
Definition errorTruthy (e : option jsstring) : bool :=
  match e with
  | Some message => negb (Nat.eqb (length message) 0)
  | None => false
  end.

Definition formOf (st : AppState) : FormView :=
  {| inputValue := topic st;
     inputDisabled := isGenerating st;
     submitDisabled := isGenerating st || Nat.eqb (length (trim (topic st))) 0;
     submitLabel := if isGenerating st
                    then lit "Generating Post & Image..."
                    else lit "Generate Post" |}.

Definition render (st : AppState) : Screen :=
  if isLoading st && Nat.eqb (length (posts st)) 0 then LoadingScreen
  else
    match selectedPost st with
    | Some post => DetailScreen post
    | None =>
        ListScreen
          (formOf st)
          (if errorTruthy (error st) && negb (isGenerating st) then error st else None)
          (Nat.eqb (length (posts st)) 0 && negb (isLoading st)
           && negb (errorTruthy (error st)))
          (posts st)
    end.

(** The [onClose] of the error banner. *)
Definition dismissError (st : AppState) : AppState := setError None st.

Definition setSelectedPost (p : option BlogPost.t) (st : AppState) :=
  {| posts := posts st; selectedPost := p;
     isLoading := isLoading st; error := error st; topic := topic st;
     isGenerating := isGenerating st |}.

(** Lines 77-83. *)
Definition handleSelectPost (post : BlogPost.t) (st : AppState) : AppState :=
  setSelectedPost (Some post) st.

Definition handleGoBackToList (st : AppState) : AppState :=
  setSelectedPost None st.

End AppView.
Import AppView.

(* ================================================================= *)
(** ** A session: the component, the calls in flight and the events

    An event is a handler run by a control that is on the screen, the
    completion of a call in flight with whatever outcome, or a render.

    A handler is a closure of the render that put it on the screen: what
    it reads of [topic], [isGenerating] and the other cells is what they
    were at that render, [rendered], while a state setter acts on the
    cells as they are now, [ui].  A render brings the screen and the
    handlers up to date. *)

Module Session.

Record Session := {
  rendered : AppState;
  ui : AppState;
  welcomePending : bool;
  generationsPending : list jsstring
}.

(** The first render followed by the effect of lines 44-46. *)
Definition mount (apiKey : option jsstring) : Session :=
  {| rendered := initialState;
     ui := fst (loadInitialPost_begin apiKey initialState);
     welcomePending := snd (loadInitialPost_begin apiKey initialState);
     generationsPending := [] |}.

Definition started (topic : option jsstring) : list jsstring :=
  match topic with
  | Some t => [t]
  | None => []
  end.

(** [handleGeneratePost] up to its [await], run as the closure of the
    render of [closure] on the cells [current]: the guard and the topic
    handed over are the closure's, the two updates go to the cells. *)
Definition submitFrom (closure current : AppState) : AppState * option jsstring :=
  if Nat.eqb (length (trim (topic closure))) 0 || isGenerating closure
  then (current, None)
  else (setError None (setIsGenerating true current), Some (topic closure)).

(** React has rendered the component again. *)
Definition commit (s : Session) : Session :=
  {| rendered := ui s;
     ui := ui s;
     welcomePending := welcomePending s;
     generationsPending := generationsPending s |}.

Inductive sessionStep : Session -> Session -> Prop :=
| StepRender s :
    sessionStep s (commit s)
| StepSubmit s form banner notice cards :
    render (rendered s) = ListScreen form banner notice cards ->
    sessionStep s
      {| rendered := rendered s;
         ui := fst (submitFrom (rendered s) (ui s));
         welcomePending := welcomePending s;
         generationsPending :=
           generationsPending s ++ started (snd (submitFrom (rendered s) (ui s))) |}
| StepType s form banner notice cards text :
    render (rendered s) = ListScreen form banner notice cards ->
    inputDisabled form = false ->
    sessionStep s
      {| rendered := rendered s;
         ui := setTopic text (ui s);
         welcomePending := welcomePending s;
         generationsPending := generationsPending s |}
| StepSelect s form banner notice cards post :
    render (rendered s) = ListScreen form banner notice cards ->
    In post cards ->
    sessionStep s
      {| rendered := rendered s;
         ui := handleSelectPost post (ui s);
         welcomePending := welcomePending s;
         generationsPending := generationsPending s |}
| StepBack s post :
    render (rendered s) = DetailScreen post ->
    sessionStep s
      {| rendered := rendered s;
         ui := handleGoBackToList (ui s);
         welcomePending := welcomePending s;
         generationsPending := generationsPending s |}
| StepDismiss s form message notice cards :
    render (rendered s) = ListScreen form (Some message) notice cards ->
    sessionStep s
      {| rendered := rendered s;
         ui := dismissError (ui s);
         welcomePending := welcomePending s;
         generationsPending := generationsPending s |}
| StepGenerationSettled s env outcome before topic after :
    generationsPending s = before ++ topic :: after ->
    sessionStep s
      {| rendered := rendered s;
         ui := handleGeneratePost_settle env outcome (ui s);
         welcomePending := welcomePending s;
         generationsPending := before ++ after |}
| StepWelcomeSettled s env outcome :
    welcomePending s = true ->
    sessionStep s
      {| rendered := rendered s;
         ui := loadInitialPost_settle env outcome (ui s);
         welcomePending := false;
         generationsPending := generationsPending s |}.

Inductive reachable (apiKey : option jsstring) : Session -> Prop :=
| ReachMount : reachable apiKey (mount apiKey)
| ReachStep s s' : reachable apiKey s -> sessionStep s s' -> reachable apiKey s'.

(** The sessions in which React renders after every event, before the
    next one is handled, as it does when the events are separate user
    actions. *)
Inductive reachableRendering (apiKey : option jsstring) : Session -> Prop :=
| RenderingMount : reachableRendering apiKey (commit (mount apiKey))
| RenderingStep s s' :
    reachableRendering apiKey s -> sessionStep s s' ->
    reachableRendering apiKey (commit s').

End Session.
Import Session.

(* ================================================================= *)
(** ** Concrete payloads, environments and states for the examples *)

Module Examples.

Definition payloadTCP : jsstring :=
  litq "{'title':'T','content':'C','imagePrompt':'P'}".

Definition payloadTC : jsstring := litq "{'title':'T','content':'C'}".

Definition payloadEmptyFields : jsstring := litq "{'title':'','content':''}".

Definition imagesOf (bytes : jsstring) : GenerateImagesResponse :=
  {| generatedImages := Some [ {| image := Some {| imageBytes := Some bytes |} |} ] |}.

(** Text generation answers [payloadTCP], image generation answers the
    bytes XYZ; the clock reads 1718000000000 ms. *)
Definition env0 : Env :=
  {| generateContent := fun _ => Return (Some payloadTCP);
     generateImages := fun _ => Return (imagesOf (lit "XYZ"));
     Date_now := 1718000000000;
     toLocaleDateString := lit "June 10, 2024" |}.

(** The same with an image capability that answers no image at all. *)
Definition envNoBytes : Env :=
  {| generateContent := fun _ => Return (Some payloadTCP);
     generateImages := fun _ => Return {| generatedImages := Some [] |};
     Date_now := 1718000000000;
     toLocaleDateString := lit "June 10, 2024" |}.

(** The same with an image capability that rejects the credential. *)
Definition envBadKey : Env :=
  {| generateContent := fun _ => Return (Some payloadTCP);
     generateImages := fun _ =>
       Throw (JsError (lit "API key not valid. Please pass a valid API key."));
     Date_now := 1718000000000;
     toLocaleDateString := lit "June 10, 2024" |}.

(** The same with a text capability that fails. *)
Definition envTextDown : Env :=
  {| generateContent := fun _ => Throw (JsError (lit "503 Service Unavailable"));
     generateImages := fun _ => Return (imagesOf (lit "XYZ"));
     Date_now := 1718000000000;
     toLocaleDateString := lit "June 10, 2024" |}.

(** The same with a text response whose title and content are empty. *)
Definition envEmptyFields : Env :=
  {| generateContent := fun _ => Return (Some payloadEmptyFields);
     generateImages := fun _ => Return (imagesOf (lit "XYZ"));
     Date_now := 1718000000000;
     toLocaleDateString := lit "June 10, 2024" |}.

(** No post, nothing in flight, [topic] typed into the field. *)
Definition idle (topic : jsstring) : AppState :=
  {| posts := []; selectedPost := None; isLoading := false; error := None;
     topic := topic; isGenerating := false |}.

Definition welcome : BlogPost.t :=
  {| BlogPost.id := lit "initial-1717999999000";
     BlogPost.title := lit "Welcome";
     BlogPost.content := lit "Happy writing!";
     BlogPost.excerpt := lit "Happy writing!...";
     BlogPost.date := lit "June 10, 2024";
     BlogPost.imageUrl := None |}.

(** A state with one post and a generation in flight. *)
Definition busy (topic : jsstring) : AppState :=
  {| posts := [welcome]; selectedPost := None; isLoading := false;
     error := None; topic := topic; isGenerating := true |}.

End Examples.
Import Examples.

(* ================================================================= *)
(** ** Vocabulary of the statements *)

(** *** Strings and fences *)

(** White space only (the empty string included). *)
Definition allWs (s : jsstring) : bool := forallb isWhiteSpace s.

(** A payload in a fence: the opening fence with its tag, white space,
    the payload, white space, the closing fence. *)
Definition fencedWith (tag before payload after : jsstring) : jsstring :=
  backticks ++ tag ++ before ++ payload ++ after ++ backticks.

(** A fenced code block as Markdown has it: the fences on lines of their
    own. *)
Definition fenced (tag payload : jsstring) : jsstring :=
  fencedWith tag [10%N] payload [10%N].

(** The tag is json, or there is none and what follows the opening fence
    does not read json either. *)
Definition tagged (tag rest : jsstring) : Prop :=
  tag = lit "json" \/ (tag = [] /\ startsWith rest (lit "json") = false).

(** White space followed by the closing fence and nothing else. *)
Definition isClosing (x : jsstring) : bool :=
  JsString.eqb (trimStart x) backticks.

(** The shortest prefix of [y] after which only white space and the
    closing fence remain. *)
Fixpoint firstClosing (y : jsstring) : option jsstring :=
  if isClosing y then Some []
  else
    match y with
    | [] => None
    | c :: y' => option_map (cons c) (firstClosing y')
    end.

(** The pieces of [fenceRegex], from its end. *)
Definition closeRe : regex := sequence [Lit backticks; End_].

Definition wsCloseRe : regex := sequence [Star isWhiteSpace; Lit backticks; End_].

Definition tailRe : regex :=
  sequence [Opt (Lit [10%N]); Star isWhiteSpace; Lit backticks; End_].

Definition anyChar : char -> bool := fun _ => true.

Definition captureRe : regex := Seq (Group (LazyStar anyChar)) tailRe.

Definition afterTagRe : regex :=
  Seq (Star isWhiteSpace) (Seq (Opt (Lit [10%N])) captureRe).

(** The continuation [matchAt] ends with. *)
Definition finish : bool -> cont (option jsstring) := fun _ _ c => Some c.

(** A continuation that ignores the start-of-input flag. *)
Definition flagFree (R : Type) (k : bool -> cont R) : Prop :=
  forall b1 b2 s c, k b1 s c = k b2 s c.

(** *** Outcomes of the upstream calls *)

(** What [generateImage] returns for an outcome of the upstream call. *)
Definition imageResult (outcome : completion GenerateImagesResponse)
  : completion (option jsstring) :=
  match outcome with
  | Return response =>
      match firstImageBytes response with
      | Some bytes => Return (Some (dataUriPrefix ++ bytes))
      | None => Return None
      end
  | Throw (JsError message) =>
      if includes message apiKeyMarker
      then Throw (JsError imageKeyErrorMessage)
      else Return None
  | Throw NonError => Return None
  end.

(** The image has bytes, and they are not the empty string. *)
Definition carriesBytes (generated : GeneratedImage) : bool :=
  match image generated with
  | Some img =>
      match imageBytes img with
      | Some bytes => negb (Nat.eqb (length bytes) 0)
      | None => false
      end
  | None => false
  end.

(** Image bytes are missing in the response: it has no list of images,
    or no image of the list carries bytes. *)
Definition missingBytes (response : GenerateImagesResponse) : bool :=
  match generatedImages response with
  | Some images => negb (existsb carriesBytes images)
  | None => true
  end.

(** The upstream call failed: it threw, or its response misses the
    bytes. *)
Definition upstreamFailed (outcome : completion GenerateImagesResponse) : bool :=
  match outcome with
  | Return response => missingBytes response
  | Throw _ => true
  end.

(** The failure is an [Error] whose message has the invalid-key marker. *)
Definition isAuthError (outcome : completion GenerateImagesResponse) : bool :=
  match outcome with
  | Throw (JsError message) => includes message apiKeyMarker
  | _ => false
  end.

(** The error [generateBlogPostContent] rethrows for a caught one. *)
Definition rethrown (error : thrown) : thrown :=
  match error with
  | JsError message =>
      if includes message apiKeyMarker
      then JsError keyErrorMessage
      else JsError (lit "Gemini API error: " ++ message)
  | NonError => JsError unknownErrorMessage
  end.

(** The call [generateBlogPostContent] makes for a topic. *)
Definition textCall (topic : jsstring) : Call :=
  CallGenerateContent textModelName (blogPrompt topic).

(** *** The coordinator *)

(** The submission is let through by the guard. *)
Definition accepted (st : AppState) : bool :=
  negb (Nat.eqb (length (trim (topic st))) 0) && negb (isGenerating st).

(** The message shown for what the awaited call threw. *)
Definition shownMessage (e : thrown) : jsstring :=
  match e with
  | JsError message => message
  | NonError => unknownPostErrorMessage
  end.

(** From [st] to [st'] one post was put in front, with the title and
    body of [content] and no image reference; no error is set and the
    in-flight flag is cleared. *)
Definition postedWithoutImage (content : BlogPostContent.t) (st st' : AppState) : Prop :=
  (exists post,
     posts st' = post :: posts st
     /\ BlogPost.imageUrl post = None
     /\ BlogPost.title post = BlogPostContent.title content
     /\ BlogPost.content post = BlogPostContent.content content)
  /\ error st' = None
  /\ isGenerating st' = false.

(* ================================================================= *)
(** ** Vocabulary of the further statements *)

(** The excerpt is the first 150 code units of the body and an ellipsis. *)
Definition excerptDerived (p : BlogPost.t) : Prop :=
  BlogPost.excerpt p = firstn 150 (BlogPost.content p) ++ lit "...".

Definition isObject (v : value) : bool :=
  match v with
  | VObject _ => true
  | _ => false
  end.

(** The one call [generateInitialWelcomePost] makes. *)
Definition welcomeCall : Call := CallGenerateContent textModelName welcomePrompt.

(** What holds of every session that can be reached: the welcome post
    is pending exactly while the loading flag is set; during that time
    the list is empty, no generation is in flight, and a submission cannot
    start one, the screen being the loading screen or the closure's topic
    blank.  And every excerpt is derived from the body. *)
Definition sessionInv (s : Session) : Prop :=
  welcomePending s = isLoading (ui s)
  /\ (isLoading (ui s) = true ->
      posts (ui s) = [] /\ isGenerating (ui s) = false /\ generationsPending s = []
      /\ (accepted (rendered s) = false \/ render (rendered s) = LoadingScreen))
  /\ Forall excerptDerived (posts (ui s)).

(** What holds besides when React renders after every event. *)
Definition renderingInv (s : Session) : Prop :=
  rendered s = ui s
  /\ length (generationsPending s) = (if isGenerating (ui s) then 1 else 0).

Definition payloadWelcome : jsstring :=
  litq "{'title':'Welcome','content':'Happy writing!','imagePrompt':'A desk'}".

(** Text generation answers [payloadWelcome]. *)
Definition envWelcome : Env :=
  {| generateContent := fun _ => Return (Some payloadWelcome);
     generateImages := fun _ => Return (imagesOf (lit "XYZ"));
     Date_now := 1717999999000;
     toLocaleDateString := lit "June 10, 2024" |}.

(** Text generation rejects the credential. *)
Definition envTextBadKey : Env :=
  {| generateContent := fun _ =>
       Throw (JsError (lit "API key not valid. Please pass a valid API key."));
     generateImages := fun _ => Return (imagesOf (lit "XYZ"));
     Date_now := 1718000000000;
     toLocaleDateString := lit "June 10, 2024" |}.

(** Text generation answers something that is no JSON. *)
Definition envNotJson : Env :=
  {| generateContent := fun _ => Return (Some (lit "Sorry, I cannot help with that."));
     generateImages := fun _ => Return (imagesOf (lit "XYZ"));
     Date_now := 1718000000000;
     toLocaleDateString := lit "June 10, 2024" |}.

(** Image generation answers two images. *)
Definition envTwoImages : Env :=
  {| generateContent := fun _ => Return (Some payloadTCP);
     generateImages := fun _ =>
       Return {| generatedImages :=
                   Some [ {| image := Some {| imageBytes := Some (lit "AAA") |} |};
                          {| image := Some {| imageBytes := Some (lit "BBB") |} |} ] |};
     Date_now := 1718000000000;
     toLocaleDateString := lit "June 10, 2024" |}.

(** Text generation answers a response without text. *)
Definition envNoText : Env :=
  {| generateContent := fun _ => Return None;
     generateImages := fun _ => Return (imagesOf (lit "XYZ"));
     Date_now := 1718000000000;
     toLocaleDateString := lit "June 10, 2024" |}.

(** A response whose image prompt is an object with a [toString] key. *)
Definition payloadObjectPrompt : jsstring :=
  litq "{'title':'T','content':'C','imagePrompt':{'toString':1}}".

Definition envObjectPrompt : Env :=
  {| generateContent := fun _ => Return (Some payloadObjectPrompt);
     generateImages := fun _ => Return (imagesOf (lit "XYZ"));
     Date_now := 1718000000000;
     toLocaleDateString := lit "June 10, 2024" |}.

(** Sessions for the examples: the component is mounted without a key,
    the topic Rust is typed, React renders, the form is submitted, and
    the generation completes. *)
Definition sessionTyped : Session :=
  {| rendered := rendered (mount None);
     ui := setTopic (lit "Rust") (ui (mount None));
     welcomePending := welcomePending (mount None);
     generationsPending := generationsPending (mount None) |}.

Definition sessionSubmitted : Session :=
  {| rendered := rendered (commit sessionTyped);
     ui := fst (submitFrom (rendered (commit sessionTyped)) (ui (commit sessionTyped)));
     welcomePending := welcomePending (commit sessionTyped);
     generationsPending :=
       generationsPending (commit sessionTyped)
       ++ started (snd (submitFrom (rendered (commit sessionTyped))
                                   (ui (commit sessionTyped)))) |}.

Definition sessionSettled : Session :=
  {| rendered := rendered sessionSubmitted;
     ui := handleGeneratePost_settle env0
             (Return {| blogContent := BlogPostContent.Build (lit "T") (lit "C") VUndefined;
                        imageUrl := None |})
             (ui sessionSubmitted);
     welcomePending := welcomePending sessionSubmitted;
     generationsPending := [] ++ [] |}.

(* ================================================================= *)
(** ** The platform model on small inputs *)

Example trim_both_ends : trim (lit "  a b  ") = lit "a b".
Proof. reflexivity. Qed.

Example trim_no_break_space : trim [160; 65; 8232]%N = [65]%N.
Proof. reflexivity. Qed.

Example substring_excerpt : substring (lit "abcdef") 0 4 = lit "abcd".
Proof. reflexivity. Qed.

Example substring_short : substring (lit "C") 0 150 = lit "C".
Proof. reflexivity. Qed.

Example includes_marker :
  includes (lit "400: API key not valid.") (lit "API key not valid") = true /\
  includes (lit "Invalid API Key") (lit "API key not valid") = false.
Proof. split; reflexivity. Qed.

Example JSON_parse_object :
  JSON.parse (litq " { 'a' : [1, -2.50e1, true, null], 'b' : {} } ")
  = Some (VObject [ (lit "a", VArray [VNumber 1 0; VNumber (-250) (-1);
                                      VBool true; VNull]);
                    (lit "b", VObject []) ]).
Proof. reflexivity. Qed.

Example JSON_parse_last_duplicate_wins :
  JSON.parse (litq "{'a':1,'a':2}") = Some (VObject [(lit "a", VNumber 2 0)]).
Proof. reflexivity. Qed.

Example JSON_parse_escapes :
  JSON.parse ([34; 92; 110; 92; 117; 48; 48; 52; 49; 34]%N) = Some (VString [10; 65]%N).
Proof. reflexivity. Qed.

Example JSON_parse_rejects :
  map JSON.parse
      [ lit ""; lit "{"; litq "{'a':1,}"; lit "[1,]"; lit "01"; lit "1."; lit ".5";
        lit "tru"; lit "nullx"; litq "{'a' 1}"; litq "'open"; lit "[1 2]" ]
  = repeat None 12.
Proof. reflexivity. Qed.

Example truthy_numbers :
  truthy (VNumber 0 0) = false /\ truthy (VNumber 0 5) = false /\
  truthy (VNumber 1 (-400)) = false /\ truthy (VNumber 5 (-324)) = true /\
  truthy (VNumber (-3) 0) = true.
Proof. repeat split; reflexivity. Qed.

Example match_fence_tagged :
  match_ (fenced (lit "json") (lit "{}")) fenceRegex = Some (Some (lit "{}")).
Proof. reflexivity. Qed.

Example match_fence_on_one_line :
  match_ (backticks ++ lit "json {} " ++ backticks) fenceRegex = Some (Some (lit "{}")).
Proof. reflexivity. Qed.

Example match_fence_empty :
  match_ (backticks ++ backticks) fenceRegex = Some (Some []).
Proof. reflexivity. Qed.

Example match_fence_not_at_start :
  match_ (lit "x" ++ fenced [] (lit "{}")) fenceRegex = None.
Proof. reflexivity. Qed.

Example match_fence_unclosed :
  match_ (backticks ++ lit "json {}") fenceRegex = None.
Proof. reflexivity. Qed.

(* ================================================================= *)
(** ** Facts about strings *)

Section StringFacts.

Lemma eqb_eq (a b : jsstring) : JsString.eqb a b = true <-> a = b.
Proof.
  revert b; induction a as [|x a IH]; intros [|y b]; simpl;
    try (split; [discriminate | discriminate]); try tauto.
  rewrite andb_true_iff, N.eqb_eq, IH.
  split; [intros [-> ->]; reflexivity | intros H; inversion H; auto].
Qed.

Lemma eqb_refl (a : jsstring) : JsString.eqb a a = true.
Proof. apply eqb_eq; reflexivity. Qed.

Lemma trimStart_allWs (w s : jsstring) :
  allWs w = true -> trimStart (w ++ s) = trimStart s.
Proof.
  induction w as [|c w IH]; simpl; [reflexivity|].
  rewrite andb_true_iff; intros [-> Hw]; auto.
Qed.

Lemma trimStart_nil_allWs (s : jsstring) : trimStart s = [] <-> allWs s = true.
Proof.
  induction s as [|c s IH]; simpl; [tauto|].
  destruct (isWhiteSpace c); simpl; [exact IH|].
  split; discriminate.
Qed.

Lemma trimStart_app_cons (a s : jsstring) (c : char) (r : jsstring) :
  trimStart a = c :: r -> trimStart (a ++ s) = (c :: r) ++ s.
Proof.
  induction a as [|x a IH]; simpl; [discriminate|].
  destruct (isWhiteSpace x); [exact IH|].
  intros H; inversion H; reflexivity.
Qed.

Lemma trimStart_head (s : jsstring) (c : char) (r : jsstring) :
  trimStart s = c :: r -> isWhiteSpace c = false.
Proof.
  induction s as [|x s IH]; simpl; [discriminate|].
  destruct (isWhiteSpace x) eqn:E; [exact IH|].
  intros H; inversion H; subst; exact E.
Qed.

Lemma trimEnd_nil_allWs (s : jsstring) : trimEnd s = [] <-> allWs s = true.
Proof.
  induction s as [|c s IH]; simpl; [tauto|].
  destruct (trimEnd s) as [|t ts].
  - destruct (isWhiteSpace c); simpl.
    + split; [intros _; apply IH; reflexivity | reflexivity].
    + split; discriminate.
  - split; [discriminate|].
    rewrite andb_true_iff; intros [_ H]; apply IH in H; discriminate.
Qed.

Lemma trimEnd_app (a b : jsstring) :
  trimEnd b <> [] -> trimEnd (a ++ b) = a ++ trimEnd b.
Proof.
  intros Hb; induction a as [|x a IH]; simpl; [reflexivity|].
  rewrite IH.
  destruct (a ++ trimEnd b) eqn:E; [|reflexivity].
  apply app_eq_nil in E; tauto.
Qed.

Lemma trimEnd_head (s : jsstring) (c : char) :
  isWhiteSpace c = false -> exists r, trimEnd (c :: s) = c :: r.
Proof.
  intros Hc; simpl.
  destruct (trimEnd s); rewrite ?Hc; eauto.
Qed.

Lemma startsWith_app (p s : jsstring) : startsWith (p ++ s) p = true.
Proof. induction p; simpl; [reflexivity|]. rewrite N.eqb_refl; auto. Qed.

Lemma skipn_app_exact (p s : jsstring) : skipn (length p) (p ++ s) = s.
Proof. induction p; simpl; auto. Qed.

Lemma startsWith_split (s p : jsstring) :
  startsWith s p = true -> s = p ++ skipn (length p) s.
Proof.
  revert s; induction p as [|x p IH]; intros [|y s]; simpl;
    try (intros _; reflexivity); try discriminate.
  rewrite andb_true_iff, N.eqb_eq; intros [-> H].
  f_equal; auto.
Qed.

End StringFacts.

(* ================================================================= *)
(** ** Facts about JSON.parse: the fuel is enough *)

Section JsonFacts.
Import JSON.

Lemma skipWs_length (s : jsstring) : length (skipWs s) <= length s.
Proof.
  induction s as [|c s IH]; simpl; [lia|].
  destruct (isWs c); simpl; lia.
Qed.

Lemma skipWs_cons_length (s : jsstring) (c : char) (r : jsstring) :
  skipWs s = c :: r -> length r < length s.
Proof.
  intros H. pose proof (skipWs_length s) as L. rewrite H in L. simpl in L. lia.
Qed.

Lemma parseChars_length_aux (n : nat) :
  forall s acc key r, length s <= n ->
    parseChars s acc = Some (key, r) -> length r < length s.
Proof.
  induction n as [|n IH]; intros s acc key r Hn H.
  - destruct s; [discriminate | simpl in Hn; lia].
  - destruct s as [|c s1]; [discriminate|].
    cbn [parseChars] in H. simpl in Hn.
    destruct (N.eqb c 34).
    { inversion H; subst. simpl. lia. }
    destruct (N.eqb c 92).
    + destruct s1 as [|e s2]; [discriminate|].
      destruct (N.eqb e 117).
      * destruct s2 as [|h1 [|h2 [|h3 [|h4 s3]]]]; try discriminate.
        destruct (hexValue h1), (hexValue h2), (hexValue h3), (hexValue h4);
          try discriminate.
        apply IH in H; simpl in *; lia.
      * destruct (escape e); [|discriminate].
        apply IH in H; simpl in *; lia.
    + destruct (N.ltb c 32); [discriminate|].
      apply IH in H; simpl in *; lia.
Qed.

Lemma parseChars_length (s acc key r : jsstring) :
  parseChars s acc = Some (key, r) -> length r < length s.
Proof. apply (@parseChars_length_aux (length s)). lia. Qed.

Lemma spanDigits_length (s : jsstring) :
  forall val len v l r, spanDigits s val len = (v, l, r) -> length r <= length s.
Proof.
  induction s as [|c s IH]; intros val len v l r H; simpl in H.
  - inversion H; subst. simpl. lia.
  - destruct (isDigit c).
    + apply IH in H. simpl. lia.
    + inversion H; subst. lia.
Qed.

Lemma spanDigits_digit_length (c : char) (s : jsstring) val len v l r :
  isDigit c = true -> spanDigits (c :: s) val len = (v, l, r) ->
  length r < length (c :: s).
Proof.
  intros Hd H. simpl in H. rewrite Hd in H.
  apply spanDigits_length in H. simpl. lia.
Qed.

Lemma eat_length (c : char) (s r : jsstring) :
  eat c s = Some r -> length s = S (length r).
Proof.
  destruct s as [|x s']; simpl; [discriminate|].
  destruct (N.eqb x c); [|discriminate].
  intros H; inversion H; reflexivity.
Qed.

Lemma parseSign_length (s : jsstring) : length (snd (parseSign s)) <= length s.
Proof.
  unfold parseSign. destruct (eat 45 s) eqn:E; simpl; [|lia].
  apply eat_length in E. lia.
Qed.

Lemma parseInt_length (s r : jsstring) (i : Z) :
  parseInt s = Some (i, r) -> length r < length s.
Proof.
  unfold parseInt. destruct (eat 48 s) eqn:E.
  - intros H; inversion H; subst. apply eat_length in E. lia.
  - destruct s as [|c s']; [discriminate|].
    destruct (isDigit c) eqn:Ed; [|discriminate].
    destruct (spanDigits (c :: s') 0 0) as [[v l] r0] eqn:Es.
    intros H; inversion H; subst.
    eapply spanDigits_digit_length; eassumption.
Qed.

Lemma parseFraction_length (i m : Z) (n : nat) (s r : jsstring) :
  parseFraction i s = Some (m, n, r) -> length r <= length s.
Proof.
  unfold parseFraction. destruct (eat 46 s) eqn:E.
  - destruct (spanDigits j i 0) as [[v l] r0] eqn:Es.
    destruct (Nat.eqb l 0); [discriminate|].
    intros H; inversion H; subst.
    apply eat_length in E. apply spanDigits_length in Es. lia.
  - intros H; inversion H; subst. lia.
Qed.

Lemma parseExponent_length (e : Z) (s r : jsstring) :
  parseExponent s = Some (e, r) -> length r <= length s.
Proof.
  unfold parseExponent.
  destruct (match eat 101 s with Some r0 => Some r0 | None => eat 69 s end)
    as [r0|] eqn:E.
  - assert (L0 : length r0 < length s).
    { destruct (eat 101 s) eqn:E1.
      - inversion E; subst. apply eat_length in E1. lia.
      - apply eat_length in E. lia. }
    set (q := match eat 45 r0 with
              | Some r' => (true, r')
              | None => match eat 43 r0 with
                        | Some r' => (false, r')
                        | None => (false, r0)
                        end
              end).
    assert (Lq : length (snd q) <= length r0).
    { subst q. destruct (eat 45 r0) eqn:E1; simpl.
      - apply eat_length in E1. lia.
      - destruct (eat 43 r0) eqn:E2; simpl; [apply eat_length in E2|]; lia. }
    destruct q as [eneg r1]. simpl in Lq.
    destruct (spanDigits r1 0 0) as [[v k] r2] eqn:Es.
    destruct (Nat.eqb k 0); [discriminate|].
    intros H; inversion H; subst. apply spanDigits_length in Es. lia.
  - intros H; inversion H; subst. lia.
Qed.

Lemma parseNumber_length (s : jsstring) (m e : Z) (r : jsstring) :
  parseNumber s = Some (m, e, r) -> length r < length s.
Proof.
  unfold parseNumber. pose proof (parseSign_length s) as L0.
  destruct (parseSign s) as [neg s0]. simpl in L0.
  destruct (parseInt s0) as [[i s1]|] eqn:Ei; [|discriminate].
  destruct (parseFraction i s1) as [[[m' n] s2]|] eqn:Ef; [|discriminate].
  destruct (parseExponent s2) as [[e' s3]|] eqn:Ee; [|discriminate].
  intros H; inversion H; subst.
  apply parseInt_length in Ei. apply parseFraction_length in Ef.
  apply parseExponent_length in Ee. lia.
Qed.

Lemma eat_skipWs_length (c : char) (s r : jsstring) :
  eat c (skipWs s) = Some r -> length r < length s.
Proof.
  intros H. apply eat_length in H. pose proof (skipWs_length s). lia.
Qed.

Lemma literal_length (c : char) (r : jsstring) (n : nat) :
  0 < n -> length (skipn n (c :: r)) < length (c :: r).
Proof.
  intros Hn. rewrite length_skipn. cbn [length]. lia.
Qed.

(** A successful parse consumes at least one character. *)
Lemma parse_consumes (n : nat) :
  (forall s v r, parseValue n s = Ok v r -> length r < length s) /\
  (forall acc s v r, parseElements n acc s = Ok v r -> length r < length s) /\
  (forall acc s v r, parseMembers n acc s = Ok v r -> length r < length s).
Proof.
  induction n as [|n (IHv & IHe & IHm)]; [repeat split; discriminate|].
  split; [|split].
  - intros s v r. cbn [parseValue].
    destruct (skipWs s) as [|c t] eqn:Es; [discriminate|].
    apply skipWs_cons_length in Es.
    destruct (N.eqb c 123).
    { destruct (eat 125 (skipWs t)) eqn:E.
      - intros H; inversion H; subst. apply eat_skipWs_length in E. lia.
      - intros H. apply IHm in H. lia. }
    destruct (N.eqb c 91).
    { destruct (eat 93 (skipWs t)) eqn:E.
      - intros H; inversion H; subst. apply eat_skipWs_length in E. lia.
      - intros H. apply IHe in H. lia. }
    destruct (N.eqb c 34).
    { destruct (parseChars t []) as [[str r']|] eqn:E; [|discriminate].
      intros H; inversion H; subst. apply parseChars_length in E. lia. }
    assert (Ls : length (c :: t) <= length s) by (simpl; lia).
    destruct (startsWith (c :: t) (lit "true")).
    { intros H. assert (r = skipn 4 (c :: t)) by congruence. subst r.
      pose proof (@literal_length c t 4 ltac:(lia)). lia. }
    destruct (startsWith (c :: t) (lit "false")).
    { intros H. assert (r = skipn 5 (c :: t)) by congruence. subst r.
      pose proof (@literal_length c t 5 ltac:(lia)). lia. }
    destruct (startsWith (c :: t) (lit "null")).
    { intros H. assert (r = skipn 4 (c :: t)) by congruence. subst r.
      pose proof (@literal_length c t 4 ltac:(lia)). lia. }
    destruct (parseNumber (c :: t)) as [[[m e] r']|] eqn:E; [|discriminate].
    intros H; inversion H; subst. apply parseNumber_length in E. lia.
  - intros acc s v r. cbn [parseElements].
    destruct (parseValue n s) as [v0 r0| |] eqn:Ev; try discriminate.
    apply IHv in Ev.
    destruct (eat 44 (skipWs r0)) eqn:E1.
    { intros H. apply IHe in H. apply eat_skipWs_length in E1. lia. }
    destruct (eat 93 (skipWs r0)) eqn:E2; [|discriminate].
    intros H; inversion H; subst. apply eat_skipWs_length in E2. lia.
  - intros acc s v r. cbn [parseMembers].
    destruct (eat 34 (skipWs s)) as [r0|] eqn:E0; [|discriminate].
    apply eat_skipWs_length in E0.
    destruct (parseChars r0 []) as [[key r1]|] eqn:Ec; [|discriminate].
    apply parseChars_length in Ec.
    destruct (eat 58 (skipWs r1)) as [r2|] eqn:E1; [|discriminate].
    apply eat_skipWs_length in E1.
    destruct (parseValue n r2) as [v0 r3| |] eqn:Ev; try discriminate.
    apply IHv in Ev.
    destruct (eat 44 (skipWs r3)) eqn:E2.
    { intros H. apply IHm in H. apply eat_skipWs_length in E2. lia. }
    destruct (eat 125 (skipWs r3)) eqn:E3; [|discriminate].
    intros H; inversion H; subst. apply eat_skipWs_length in E3. lia.
Qed.

(** The parser never stops for lack of fuel when it is given two units for
    each character and one more. *)
Lemma parse_fuel (n : nat) :
  (forall s, 2 * length s + 1 <= n -> parseValue n s <> OutOfFuel) /\
  (forall acc s, 2 * length s + 2 <= n -> parseElements n acc s <> OutOfFuel) /\
  (forall acc s, 2 * length s + 2 <= n -> parseMembers n acc s <> OutOfFuel).
Proof.
  induction n as [|n (IHv & IHe & IHm)]; [repeat split; intros; lia|].
  destruct (parse_consumes n) as (Cv & _ & _).
  split; [|split].
  - intros s Hn. cbn [parseValue].
    destruct (skipWs s) as [|c t] eqn:Es; [discriminate|].
    apply skipWs_cons_length in Es.
    destruct (N.eqb c 123).
    { destruct (eat 125 (skipWs t)); [discriminate|]. apply IHm. lia. }
    destruct (N.eqb c 91).
    { destruct (eat 93 (skipWs t)); [discriminate|]. apply IHe. lia. }
    destruct (N.eqb c 34).
    { destruct (parseChars t []) as [[str r']|]; discriminate. }
    destruct (startsWith (c :: t) (lit "true")); [discriminate|].
    destruct (startsWith (c :: t) (lit "false")); [discriminate|].
    destruct (startsWith (c :: t) (lit "null")); [discriminate|].
    destruct (parseNumber (c :: t)) as [[[m e] r']|]; discriminate.
  - intros acc s Hn. cbn [parseElements].
    destruct (parseValue n s) as [v0 r0| |] eqn:Ev; [|discriminate|].
    + apply Cv in Ev.
      destruct (eat 44 (skipWs r0)) eqn:E1.
      { apply eat_skipWs_length in E1. apply IHe. lia. }
      destruct (eat 93 (skipWs r0)); discriminate.
    + exfalso. revert Ev. apply IHv. lia.
  - intros acc s Hn. cbn [parseMembers].
    destruct (eat 34 (skipWs s)) as [r0|] eqn:E0; [|discriminate].
    apply eat_skipWs_length in E0.
    destruct (parseChars r0 []) as [[key r1]|] eqn:Ec; [|discriminate].
    apply parseChars_length in Ec.
    destruct (eat 58 (skipWs r1)) as [r2|] eqn:E1; [|discriminate].
    apply eat_skipWs_length in E1.
    destruct (parseValue n r2) as [v0 r3| |] eqn:Ev; [|discriminate|].
    + apply Cv in Ev.
      destruct (eat 44 (skipWs r3)) eqn:E2.
      { apply eat_skipWs_length in E2. apply IHm. lia. }
      destruct (eat 125 (skipWs r3)); discriminate.
    + exfalso. revert Ev. apply IHv. lia.
Qed.

(** [JSON.parse] is given enough fuel: on every text it ends with a value
    or with a syntax error. *)
Lemma parseValue_fuel (text : jsstring) :
  parseValue (2 * length text + 1) text <> OutOfFuel.
Proof. apply (proj1 (parse_fuel (2 * length text + 1))). lia. Qed.

End JsonFacts.

(* ================================================================= *)
(** ** Facts about the fence pattern

    The matcher is run symbolically on the pattern, piece by piece from
    its end: the closing fence, the white space before it, the optional
    line feed, the lazy capture, and last the opening. *)

Section FenceFacts.
Variable R : Type.
Implicit Types (k : bool -> cont R) (s x : jsstring).

Lemma run_closeRe k b s cap :
  flagFree k ->
  run closeRe b s cap k = if JsString.eqb s backticks then k false [] cap else None.
Proof.
  intros Hk. unfold closeRe, sequence; simpl fold_right.
  cbn [run].
  destruct (startsWith s backticks) eqn:E.
  - apply startsWith_split in E.
    remember (skipn (length backticks) s) as r eqn:Er. clear Er. subst s.
    destruct r as [|c r].
    + rewrite app_nil_r, eqb_refl. apply Hk.
    + destruct (JsString.eqb (backticks ++ c :: r) backticks) eqn:E'; [|reflexivity].
      apply eqb_eq in E'. discriminate.
  - destruct (JsString.eqb s backticks) eqn:E'; [|reflexivity].
    apply eqb_eq in E'; subst. discriminate.
Qed.

Lemma starGreedy_closing (k1 : cont R) x cap (v : option R) :
  (forall s, k1 s cap = if JsString.eqb s backticks then v else None) ->
  starGreedy isWhiteSpace x cap k1 = if isClosing x then v else None.
Proof.
  intros Hk1. unfold isClosing.
  induction x as [|c x IH]; simpl.
  - rewrite Hk1. reflexivity.
  - destruct (isWhiteSpace c) eqn:Ec.
    + rewrite IH. destruct (JsString.eqb (trimStart x) backticks); [destruct v|]; try reflexivity.
      * rewrite Hk1. destruct (JsString.eqb (c :: x) backticks) eqn:E; [|reflexivity].
        apply eqb_eq in E. inversion E; subst. discriminate.
      * rewrite Hk1. destruct (JsString.eqb (c :: x) backticks) eqn:E; [|reflexivity].
        apply eqb_eq in E. inversion E; subst. discriminate.
    + apply Hk1.
Qed.

Lemma run_wsCloseRe k b x cap :
  flagFree k ->
  run wsCloseRe b x cap k = if isClosing x then k false [] cap else None.
Proof.
  intros Hk.
  change wsCloseRe with (Seq (Star isWhiteSpace) closeRe).
  cbn [run].
  apply starGreedy_closing.
  intros s. apply run_closeRe, Hk.
Qed.

Lemma isClosing_ws c x : isWhiteSpace c = true -> isClosing (c :: x) = isClosing x.
Proof. intros H. unfold isClosing. simpl. rewrite H. reflexivity. Qed.

Lemma run_tailRe k b x cap :
  flagFree k ->
  run tailRe b x cap k = if isClosing x then k false [] cap else None.
Proof.
  intros Hk.
  change tailRe with (Seq (Opt (Lit [10%N])) wsCloseRe).
  cbn [run]. rewrite !run_wsCloseRe by exact Hk.
  destruct (startsWith x [10%N]) eqn:E.
  - apply startsWith_split in E. simpl in E.
    destruct x as [|c x']; [discriminate|]. simpl in E. inversion E; subst c.
    simpl skipn. rewrite (isClosing_ws 10%N x') by reflexivity.
    destruct (isClosing x'); [destruct (k false [] cap)|]; reflexivity.
  - reflexivity.
Qed.
End FenceFacts.

Lemma finish_flagFree : flagFree finish.
Proof. intros ? ? ? ?; reflexivity. Qed.

Lemma firstClosing_eq y :
  firstClosing y =
  if isClosing y then Some []
  else match y with
       | [] => None
       | c :: y' => option_map (cons c) (firstClosing y')
       end.
Proof. destruct y; reflexivity. Qed.

Lemma starLazy_firstClosing (pre s : jsstring) (cap : option jsstring) :
  starLazy anyChar s cap
    (fun s' _ =>
       run tailRe false s'
           (Some (firstn (length (pre ++ s) - length s') (pre ++ s))) finish)
  = option_map (fun p => Some (pre ++ p)) (firstClosing s).
Proof.
  revert pre; induction s as [|c s IH]; intros pre.
  - cbn [starLazy]. rewrite run_tailRe by apply finish_flagFree.
    rewrite firstClosing_eq.
    destruct (isClosing []); [|reflexivity].
    unfold finish; simpl. rewrite app_nil_r, Nat.sub_0_r, firstn_all. reflexivity.
  - cbn [starLazy]. rewrite run_tailRe by apply finish_flagFree.
    rewrite firstClosing_eq.
    destruct (isClosing (c :: s)).
    + unfold finish; simpl. rewrite app_nil_r.
      replace (length (pre ++ c :: s) - S (length s))%nat with (length pre)
        by (rewrite length_app; simpl; lia).
      rewrite firstn_app, firstn_all, Nat.sub_diag. simpl. rewrite app_nil_r. reflexivity.
    + unfold anyChar at 1.
      specialize (IH (pre ++ [c])).
      rewrite <- app_assoc in IH. change ([c] ++ s) with (c :: s) in IH. rewrite IH.
      destruct (firstClosing s); simpl; [|reflexivity].
      rewrite <- app_assoc. reflexivity.
Qed.

Lemma starLazy_ext (R : Type) p s cap (k1 k2 : cont R) :
  (forall s' c, k1 s' c = k2 s' c) ->
  starLazy p s cap k1 = starLazy p s cap k2.
Proof.
  intros H. induction s as [|c s IH]; cbn [starLazy]; rewrite H; [reflexivity|].
  rewrite IH. reflexivity.
Qed.

Lemma run_captureRe b y cap :
  run captureRe b y cap finish = option_map Some (firstClosing y).
Proof.
  unfold captureRe. cbn [run].
  transitivity (option_map (fun p => Some ([] ++ p)) (firstClosing y));
    [|reflexivity].
  rewrite <- (starLazy_firstClosing [] y cap). cbn [app].
  apply starLazy_ext. intros s' c.
  rewrite !run_tailRe by apply finish_flagFree. reflexivity.
Qed.

Lemma isClosing_long (c : char) (r w : jsstring) (a : jsstring) :
  trimStart a = c :: r -> isClosing (a ++ w ++ backticks) = false.
Proof.
  intros H. unfold isClosing.
  rewrite (trimStart_app_cons _ _ H).
  destruct (JsString.eqb _ _) eqn:E; [|reflexivity].
  apply eqb_eq in E. apply (f_equal (@length _)) in E.
  simpl in E. rewrite !length_app in E. simpl in E. lia.
Qed.

Lemma isClosing_allWs (w : jsstring) :
  allWs w = true -> isClosing (w ++ backticks) = true.
Proof.
  intros H. unfold isClosing. rewrite trimStart_allWs by exact H. reflexivity.
Qed.

Lemma allWs_app (a b : jsstring) : allWs (a ++ b) = allWs a && allWs b.
Proof. apply forallb_app. Qed.

Lemma firstClosing_spec (q w : jsstring) :
  allWs w = true -> firstClosing (q ++ w ++ backticks) = Some (trimEnd q).
Proof.
  intros Hw. induction q as [|c q IH].
  - rewrite firstClosing_eq. cbn [app]. rewrite isClosing_allWs by exact Hw. reflexivity.
  - rewrite firstClosing_eq.
    destruct (allWs (c :: q)) eqn:Ea.
    + rewrite app_assoc, isClosing_allWs by (rewrite allWs_app, Ea, Hw; reflexivity).
      apply trimEnd_nil_allWs in Ea. rewrite Ea. reflexivity.
    + destruct (trimStart (c :: q)) as [|c' r'] eqn:Et.
      { apply trimStart_nil_allWs in Et. congruence. }
      rewrite (@isClosing_long _ _ w _ Et).
      cbn [app]. rewrite IH. cbn [option_map trimEnd].
      destruct (trimEnd q) as [|t ts] eqn:Eq; [|reflexivity].
      apply trimEnd_nil_allWs in Eq.
      simpl in Ea. rewrite Eq, andb_true_r in Ea. rewrite Ea. reflexivity.
Qed.

Lemma starGreedy_max (R : Type) (k1 : cont R) x cap r :
  k1 (trimStart x) cap = Some r ->
  starGreedy isWhiteSpace x cap k1 = Some r.
Proof.
  induction x as [|c x IH]; cbn [starGreedy trimStart]; [auto|].
  destruct (isWhiteSpace c); [|auto].
  intros H. rewrite (IH H). reflexivity.
Qed.

Lemma fenceRegex_split :
  fenceRegex =
  Seq Begin (Seq (Lit backticks) (Seq (Opt (Lit (lit "json"))) afterTagRe)).
Proof. reflexivity. Qed.

Lemma nonWs_not_lf (c : char) : isWhiteSpace c = false -> N.eqb 10 c = false.
Proof.
  intros H. destruct (N.eqb_spec 10 c) as [<-|]; [discriminate H | reflexivity].
Qed.

Lemma run_afterTagRe b (before payload after : jsstring) :
  allWs before = true -> allWs after = true ->
  run afterTagRe b (before ++ payload ++ after ++ backticks) None finish
  = Some (Some (trim payload)).
Proof.
  intros Hb Ha. unfold afterTagRe. cbn [run].
  apply starGreedy_max.
  rewrite (trimStart_allWs _ _ Hb).
  unfold trim.
  destruct (trimStart payload) as [|c r] eqn:Et.
  - apply trimStart_nil_allWs in Et.
    rewrite (trimStart_allWs _ _ Et), (trimStart_allWs _ _ Ha).
    change (trimStart backticks) with backticks.
    change (startsWith backticks [10%N]) with false. cbv iota.
    rewrite run_captureRe. reflexivity.
  - rewrite (trimStart_app_cons _ (after ++ backticks) Et).
    pose proof (@nonWs_not_lf c (trimStart_head _ Et)) as Hc.
    cbn [app startsWith]. rewrite Hc. cbn [andb].
    rewrite run_captureRe.
    change (c :: r ++ after ++ backticks) with ((c :: r) ++ after ++ backticks).
    rewrite firstClosing_spec by exact Ha. reflexivity.
Qed.

Lemma matchAt_fencedWith (tag before payload after : jsstring) :
  allWs before = true -> allWs after = true ->
  tagged tag (before ++ payload ++ after ++ backticks) ->
  matchAt fenceRegex true (fencedWith tag before payload after)
  = Some (Some (trim payload)).
Proof.
  intros Hb Ha Htag. unfold matchAt, fencedWith. rewrite fenceRegex_split. cbn [run].
  rewrite startsWith_app, skipn_app_exact.
  destruct Htag as [-> | [-> Hj]].
  - rewrite startsWith_app, skipn_app_exact.
    rewrite run_afterTagRe by assumption. reflexivity.
  - cbn [app]. rewrite Hj. apply run_afterTagRe; assumption.
Qed.

Lemma match_fencedWith (tag before payload after : jsstring) :
  allWs before = true -> allWs after = true ->
  tagged tag (before ++ payload ++ after ++ backticks) ->
  match_ (fencedWith tag before payload after) fenceRegex
  = Some (Some (trim payload)).
Proof.
  intros Hb Ha Htag. unfold match_.
  destruct (fencedWith tag before payload after) eqn:E; cbn [search]; rewrite <- E;
    rewrite matchAt_fencedWith by assumption; reflexivity.
Qed.

Lemma search_fence_later (s : jsstring) : search fenceRegex false s = None.
Proof. induction s as [|c s IH]; cbn [search]; [reflexivity | exact IH]. Qed.

Lemma match_unfenced (s : jsstring) :
  startsWith s backticks = false -> match_ s fenceRegex = None.
Proof.
  intros H. unfold match_.
  assert (Hm : matchAt fenceRegex true s = None).
  { unfold matchAt. rewrite fenceRegex_split. cbn [run]. rewrite H. reflexivity. }
  destruct s as [|c s]; cbn [search]; rewrite Hm; [reflexivity|].
  apply search_fence_later.
Qed.

Lemma trimEnd_idem (s : jsstring) : trimEnd (trimEnd s) = trimEnd s.
Proof.
  induction s as [|c s IH]; [reflexivity|].
  cbn [trimEnd]. destruct (trimEnd s) as [|t ts] eqn:E.
  - destruct (isWhiteSpace c) eqn:Ec; [reflexivity|].
    cbn [trimEnd]. rewrite Ec. reflexivity.
  - cbn [trimEnd] in *. rewrite IH. reflexivity.
Qed.

Lemma trim_idem (s : jsstring) : trim (trim s) = trim s.
Proof.
  unfold trim.
  destruct (trimStart s) as [|c r] eqn:E; [reflexivity|].
  destruct (@trimEnd_head r c (trimStart_head _ E)) as [r' Hr].
  rewrite Hr. cbn [trimStart]. rewrite (trimStart_head _ E).
  rewrite <- Hr. apply trimEnd_idem.
Qed.

Lemma trim_fencedWith (tag before payload after : jsstring) :
  trim (fencedWith tag before payload after) = fencedWith tag before payload after.
Proof.
  unfold trim.
  change (trimStart (fencedWith tag before payload after))
    with (fencedWith tag before payload after).
  unfold fencedWith.
  replace (backticks ++ tag ++ before ++ payload ++ after ++ backticks)
    with ((backticks ++ tag ++ before ++ payload ++ after) ++ backticks)
    by (repeat rewrite <- app_assoc; reflexivity).
  rewrite trimEnd_app by discriminate. reflexivity.
Qed.

Lemma jsonText_fencedWith (tag before payload after : jsstring) :
  allWs before = true -> allWs after = true ->
  tagged tag (before ++ payload ++ after ++ backticks) ->
  jsonText (fencedWith tag before payload after) =
  if Nat.eqb (length (trim payload)) 0
  then fencedWith tag before payload after
  else trim payload.
Proof.
  intros Hb Ha Htag. unfold jsonText.
  rewrite trim_fencedWith, match_fencedWith, trim_idem by assumption.
  destruct (Nat.eqb (length (trim payload)) 0); reflexivity.
Qed.

Lemma jsonText_unfenced (responseText : jsstring) :
  startsWith (trim responseText) backticks = false ->
  jsonText responseText = trim responseText.
Proof. intros H. unfold jsonText. rewrite (match_unfenced _ H). reflexivity. Qed.

Lemma JSON_parse_backtick (s : jsstring) : JSON.parse (96%N :: s) = None.
Proof.
  unfold JSON.parse. rewrite Nat.add_1_r. reflexivity.
Qed.

Lemma JSON_parse_empty : JSON.parse [] = None.
Proof. reflexivity. Qed.

Lemma JSON_parse_fence_start (s : jsstring) :
  startsWith s backticks = true -> JSON.parse s = None.
Proof.
  intros H. apply startsWith_split in H. rewrite H. apply JSON_parse_backtick.
Qed.

(* ================================================================= *)
(** ** The response parser *)

(** The parser in terms of what [JSON.parse] makes of the extracted text:
    whatever goes wrong inside [try] leaves as the same error. *)
Lemma parse_cases (responseText : jsstring) :
  parseGeminiJsonResponse responseText =
  match JSON.parse (jsonText responseText) with
  | Some parsed =>
      match hasStringTitleAndContent parsed with
      | Return true => Return (asBlogPostContent parsed)
      | _ => Throw (JsError parseErrorMessage)
      end
  | None => Throw (JsError parseErrorMessage)
  end.
Proof.
  unfold parseGeminiJsonResponse.
  destruct (JSON.parse (jsonText responseText)) as [parsed|]; [|reflexivity].
  cbn [bindC tryCatchC].
  destruct (hasStringTitleAndContent parsed) as [[|]|e]; reflexivity.
Qed.

Lemma parse_throw_inv (responseText : jsstring) (e : thrown) :
  parseGeminiJsonResponse responseText = Throw e -> e = JsError parseErrorMessage.
Proof.
  rewrite parse_cases.
  destruct (JSON.parse _) as [parsed|];
    [destruct (hasStringTitleAndContent parsed) as [[|]|e']|];
    intros H; inversion H; reflexivity.
Qed.

Lemma typeof_string (v : value) :
  JsString.eqb (typeof v) (lit "string") = true <-> exists s, v = VString s.
Proof.
  destruct v; simpl; split; try discriminate; try (intros [s H]; discriminate).
  - eauto.
  - reflexivity.
Qed.

Lemma hasStringTitleAndContent_true (parsed : value) :
  hasStringTitleAndContent parsed = Return true <->
  exists t c, Js.get parsed (lit "title") = Return (VString t) /\
              Js.get parsed (lit "content") = Return (VString c).
Proof.
  unfold hasStringTitleAndContent.
  destruct (Js.get parsed (lit "title")) as [vt|e]; cbn [bindC].
  2:{ split; [discriminate | intros (t & c & H & _); discriminate]. }
  destruct (JsString.eqb (typeof vt) (lit "string")) eqn:Et.
  - apply typeof_string in Et. destruct Et as [t ->].
    destruct (Js.get parsed (lit "content")) as [vc|e]; cbn [bindC].
    2:{ split; [discriminate | intros (t' & c & _ & H); discriminate]. }
    destruct (JsString.eqb (typeof vc) (lit "string")) eqn:Ec.
    + apply typeof_string in Ec. destruct Ec as [c ->].
      split; [eauto | reflexivity].
    + split; [discriminate|].
      intros (t' & c & _ & H). inversion H; subst.
      simpl in Ec. discriminate.
  - split; [discriminate|].
    intros (t & c & H & _). inversion H; subst. simpl in Et. discriminate.
Qed.

Lemma asBlogPostContent_fields (parsed : value) (t c : jsstring) :
  Js.get parsed (lit "title") = Return (VString t) ->
  Js.get parsed (lit "content") = Return (VString c) ->
  BlogPostContent.title (asBlogPostContent parsed) = t /\
  BlogPostContent.content (asBlogPostContent parsed) = c.
Proof.
  intros Ht Hc. unfold asBlogPostContent. cbn [BlogPostContent.title BlogPostContent.content].
  rewrite Ht, Hc. split; reflexivity.
Qed.

(** The accepting half of the contract: a response whose JSON is an object
    with string [title] and [content] is returned with those two values. *)
Lemma parse_accepts (responseText : jsstring) (parsed : value) (t c : jsstring) :
  JSON.parse (jsonText responseText) = Some parsed ->
  Js.get parsed (lit "title") = Return (VString t) ->
  Js.get parsed (lit "content") = Return (VString c) ->
  exists r, parseGeminiJsonResponse responseText = Return r /\
            BlogPostContent.title r = t /\ BlogPostContent.content r = c.
Proof.
  intros Hp Ht Hc. rewrite parse_cases, Hp.
  assert (H : hasStringTitleAndContent parsed = Return true)
    by (apply hasStringTitleAndContent_true; eauto).
  rewrite H. eexists; split; [reflexivity|].
  apply asBlogPostContent_fields; assumption.
Qed.

(** The rejecting half, as the code has it: the response is rejected, with
    the error of the [catch] block. *)
Lemma parse_rejects (responseText : jsstring) (parsed : value) :
  JSON.parse (jsonText responseText) = Some parsed ->
  hasStringTitleAndContent parsed <> Return true ->
  parseGeminiJsonResponse responseText = Throw (JsError parseErrorMessage).
Proof.
  intros Hp Hn. rewrite parse_cases, Hp.
  destruct (hasStringTitleAndContent parsed) as [[|]|e]; congruence.
Qed.

(** C1 (the code departs from it).  A response that is valid JSON but has
    no string [content] is rejected, yet not with the structural error the
    code constructs for it: that error is thrown inside the [try] block
    whose [catch] replaces it by the not-valid-JSON error. *)
Theorem missing_field_surfaces_as_parse_error :
  JSON.parse (jsonText (litq "{'title':'T'}"))
    = Some (VObject [(lit "title", VString (lit "T"))]) /\
  parseGeminiJsonResponse (litq "{'title':'T'}") = Throw (JsError parseErrorMessage) /\
  parseGeminiJsonResponse (litq "{'title':'T'}") <> Throw (JsError structureErrorMessage).
Proof.
  split; [reflexivity|]. split; [reflexivity|].
  vm_compute. discriminate.
Qed.

(** C2 (the code departs from it).  Any two failures of the parser carry
    the same error: malformed JSON and well-formed JSON without the
    required fields cannot be told apart by the caller. *)
Theorem parse_failures_indistinguishable
  (malformed incomplete : jsstring) (parsed : value) (e1 e2 : thrown) :
  JSON.parse (jsonText malformed) = None ->
  JSON.parse (jsonText incomplete) = Some parsed ->
  parseGeminiJsonResponse malformed = Throw e1 ->
  parseGeminiJsonResponse incomplete = Throw e2 ->
  e1 = e2.
Proof.
  intros _ _ H1 H2.
  apply parse_throw_inv in H1, H2. congruence.
Qed.

Lemma parse_failures_indistinguishable_witness :
  JSON.parse (jsonText (lit "{")) = None /\
  JSON.parse (jsonText (lit "{}")) = Some (VObject []) /\
  parseGeminiJsonResponse (lit "{") = Throw (JsError parseErrorMessage) /\
  parseGeminiJsonResponse (lit "{}") = Throw (JsError parseErrorMessage) /\
  JsError parseErrorMessage = JsError parseErrorMessage.
Proof.
  do 4 (split; [reflexivity|]).
  apply (@parse_failures_indistinguishable (lit "{") (lit "{}") (VObject []));
    reflexivity.
Defined.

(** C3, as the code has it.  A result is produced exactly when the parsed
    response has a string [title] and a string [content], and it carries
    those two strings; whether they are empty is not examined. *)
Theorem parse_result_has_string_fields (responseText : jsstring) (r : BlogPostContent.t) :
  parseGeminiJsonResponse responseText = Return r <->
  exists parsed,
    JSON.parse (jsonText responseText) = Some parsed /\
    r = asBlogPostContent parsed /\
    Js.get parsed (lit "title") = Return (VString (BlogPostContent.title r)) /\
    Js.get parsed (lit "content") = Return (VString (BlogPostContent.content r)).
Proof.
  rewrite parse_cases. split.
  - destruct (JSON.parse (jsonText responseText)) as [parsed|]; [|discriminate].
    destruct (hasStringTitleAndContent parsed) as [[|]|e] eqn:E; try discriminate.
    intros H; inversion H; subst r; clear H.
    apply hasStringTitleAndContent_true in E. destruct E as (t & c & Ht & Hc).
    exists parsed. split; [reflexivity|]. split; [reflexivity|].
    destruct (asBlogPostContent_fields _ Ht Hc) as [-> ->]. auto.
  - intros (parsed & Hp & -> & Ht & Hc). rewrite Hp.
    assert (H : hasStringTitleAndContent parsed = Return true)
      by (apply hasStringTitleAndContent_true; eauto).
    rewrite H. reflexivity.
Qed.

Lemma parse_result_has_string_fields_witness :
  parseGeminiJsonResponse payloadTCP
    = Return (BlogPostContent.Build (lit "T") (lit "C") (VString (lit "P"))) /\
  exists parsed,
    JSON.parse (jsonText payloadTCP) = Some parsed /\
    BlogPostContent.Build (lit "T") (lit "C") (VString (lit "P"))
      = asBlogPostContent parsed /\
    Js.get parsed (lit "title") = Return (VString (lit "T")) /\
    Js.get parsed (lit "content") = Return (VString (lit "C")).
Proof.
  split; [reflexivity|].
  apply (proj1 (@parse_result_has_string_fields payloadTCP
                  (BlogPostContent.Build (lit "T") (lit "C") (VString (lit "P"))))).
  reflexivity.
Defined.

(** C3 as stated fails: a response with an empty title and an empty body
    is accepted, and the post built from it has an empty title and body. *)
Lemma empty_title_and_body_accepted :
  parseGeminiJsonResponse payloadEmptyFields
    = Return (BlogPostContent.Build [] [] VUndefined) /\
  exists p, posts (fst (handleGeneratePost envEmptyFields (idle (lit "x")) [])) = [p] /\
            BlogPost.title p = [] /\ BlogPost.content p = [].
Proof.
  split; [reflexivity|].
  eexists. split; [vm_compute; reflexivity|]. split; reflexivity.
Qed.

(* ----------------------------------------------------------------- *)
(** *** Fenced responses *)

Lemma parse_congr (r1 r2 : jsstring) :
  jsonText r1 = jsonText r2 ->
  parseGeminiJsonResponse r1 = parseGeminiJsonResponse r2.
Proof. intros H. rewrite !parse_cases, H. reflexivity. Qed.

Lemma parse_syntax_error (responseText : jsstring) :
  JSON.parse (jsonText responseText) = None ->
  parseGeminiJsonResponse responseText = Throw (JsError parseErrorMessage).
Proof. intros H. rewrite parse_cases, H. reflexivity. Qed.

Lemma length_zero_nil (A : Type) (l : list A) : Nat.eqb (length l) 0 = true -> l = [].
Proof. destruct l; [reflexivity | discriminate]. Qed.

(** A fenced payload that is blank is not unwrapped, and is no JSON. *)
Lemma parse_fenced_blank (tag before payload after : jsstring) :
  allWs before = true -> allWs after = true ->
  tagged tag (before ++ payload ++ after ++ backticks) ->
  trim payload = [] ->
  parseGeminiJsonResponse (fencedWith tag before payload after)
  = Throw (JsError parseErrorMessage).
Proof.
  intros Hb Ha Htag Hblank. apply parse_syntax_error.
  rewrite jsonText_fencedWith by assumption. rewrite Hblank. cbn [length Nat.eqb].
  apply JSON_parse_fence_start. apply startsWith_app.
Qed.

(** A payload that begins with a fence of its own is rejected when it is
    fenced: only one fence is removed. *)
Lemma parse_fenced_twice (tag before payload after : jsstring) :
  allWs before = true -> allWs after = true ->
  tagged tag (before ++ payload ++ after ++ backticks) ->
  startsWith (trim payload) backticks = true ->
  parseGeminiJsonResponse (fencedWith tag before payload after)
  = Throw (JsError parseErrorMessage).
Proof.
  intros Hb Ha Htag Hs. apply parse_syntax_error.
  rewrite jsonText_fencedWith by assumption.
  destruct (Nat.eqb (length (trim payload)) 0).
  - apply JSON_parse_fence_start. apply startsWith_app.
  - apply JSON_parse_fence_start. exact Hs.
Qed.

(** A payload without a fence of its own is parsed the same fenced. *)
Lemma parse_fenced_once (tag before payload after : jsstring) :
  allWs before = true -> allWs after = true ->
  tagged tag (before ++ payload ++ after ++ backticks) ->
  startsWith (trim payload) backticks = false ->
  parseGeminiJsonResponse (fencedWith tag before payload after)
  = parseGeminiJsonResponse payload.
Proof.
  intros Hb Ha Htag Hu.
  destruct (Nat.eqb (length (trim payload)) 0) eqn:El.
  - apply length_zero_nil in El.
    rewrite parse_fenced_blank by assumption.
    symmetry. apply parse_syntax_error.
    rewrite (jsonText_unfenced _ Hu), El. reflexivity.
  - apply parse_congr.
    rewrite jsonText_fencedWith by assumption.
    rewrite El, (jsonText_unfenced _ Hu). reflexivity.
Qed.

Lemma tagged_on_own_line (tag rest : jsstring) :
  tag = [] \/ tag = lit "json" -> tagged tag (10%N :: rest).
Proof. intros [-> | ->]; [right; split; reflexivity | left; reflexivity]. Qed.

(** C6, as the code has it.  A payload wrapped in a fence (the opening
    fence, tagged json or not, white space, the payload, white space, the
    closing fence) is parsed exactly as the payload alone, provided the
    payload does not begin with a fence of its own; a payload that is
    rejected alone is rejected when fenced, with the same error; and a
    payload that begins with a fence of its own is rejected when fenced,
    whatever it gives alone.  Where the fence has no tag, what follows it
    must not read json, which the pattern would take for the tag; that is
    so whenever the fences are on lines of their own. *)
Theorem fenced_payload_parses_like_unfenced (tag before payload after : jsstring) :
  allWs before = true -> allWs after = true ->
  tagged tag (before ++ payload ++ after ++ backticks) ->
  (startsWith (trim payload) backticks = false ->
   parseGeminiJsonResponse (fencedWith tag before payload after)
   = parseGeminiJsonResponse payload)
  /\
  (forall e, parseGeminiJsonResponse payload = Throw e ->
             parseGeminiJsonResponse (fencedWith tag before payload after) = Throw e)
  /\
  (startsWith (trim payload) backticks = true ->
   parseGeminiJsonResponse (fencedWith tag before payload after)
   = Throw (JsError parseErrorMessage))
  /\
  (forall tag', tag' = [] \/ tag' = lit "json" ->
                tagged tag' ([10%N] ++ payload ++ [10%N] ++ backticks)).
Proof.
  intros Hb Ha Htag.
  split; [apply parse_fenced_once; assumption|].
  split; [|split; [apply parse_fenced_twice; assumption|]].
  - intros e He.
    destruct (startsWith (trim payload) backticks) eqn:Hs.
    + rewrite (parse_throw_inv _ He). apply parse_fenced_twice; assumption.
    + rewrite parse_fenced_once by assumption. exact He.
  - intros tag' Ht. apply tagged_on_own_line. exact Ht.
Qed.

Lemma fenced_payload_parses_like_unfenced_witness :
  (allWs [10%N] = true /\ allWs [10%N] = true /\
   tagged (lit "json") ([10%N] ++ payloadTC ++ [10%N] ++ backticks) /\
   startsWith (trim payloadTC) backticks = false) /\
  parseGeminiJsonResponse (fenced (lit "json") payloadTC)
  = parseGeminiJsonResponse payloadTC.
Proof.
  split; [repeat split; try reflexivity; left; reflexivity|].
  apply (proj1 (@fenced_payload_parses_like_unfenced
                  (lit "json") [10%N] payloadTC [10%N]
                  eq_refl eq_refl (or_introl eq_refl))).
  reflexivity.
Defined.

(** C6 as stated fails, twice over: a payload that is accepted and is
    itself fenced is rejected once it is fenced again; and a payload that
    is rejected because it begins with the letters json is accepted
    between two fences that touch it, the letters being read as the tag. *)
Lemma fencing_changes_outcome :
  (parseGeminiJsonResponse (fenced (lit "json") payloadTC)
     = Return (BlogPostContent.Build (lit "T") (lit "C") VUndefined) /\
   parseGeminiJsonResponse (fenced (lit "json") (fenced (lit "json") payloadTC))
     = Throw (JsError parseErrorMessage))
  /\
  (parseGeminiJsonResponse (lit "json" ++ payloadTC)
     = Throw (JsError parseErrorMessage) /\
   parseGeminiJsonResponse (fencedWith [] [] (lit "json" ++ payloadTC) [])
     = Return (BlogPostContent.Build (lit "T") (lit "C") VUndefined)).
Proof. repeat split; reflexivity. Qed.

(* ================================================================= *)
(** ** The image generator *)

Lemma generateImage_falsy (env : Env) (prompt : value) (log : list Call) :
  truthy prompt = false -> generateImage env prompt log = (Return None, log).
Proof. intros H. unfold generateImage. rewrite H. reflexivity. Qed.

Lemma generateImage_truthy (env : Env) (prompt : value) (log : list Call) :
  truthy prompt = true -> toStringThrows prompt = false ->
  generateImage env prompt log =
  (imageResult (generateImages env prompt),
   log ++ [CallGenerateImages imageModelName prompt]).
Proof.
  intros H Hc. unfold generateImage, logPrompt. rewrite H, Hc. cbn [negb].
  unfold tryCatch, bind, ret, callGenerateImages, imageResult.
  destruct (generateImages env prompt) as [response|[message|]].
  - destruct (firstImageBytes response); reflexivity.
  - destruct (includes message apiKeyMarker); reflexivity.
  - reflexivity.
Qed.

(** A prompt whose conversion to a string throws never reaches the
    upstream call: the [TypeError] is caught, and it has no marker. *)
Lemma generateImage_unconvertible (env : Env) (prompt : value) (log : list Call) :
  truthy prompt = true -> toStringThrows prompt = true ->
  generateImage env prompt log = (Return None, log).
Proof.
  intros H Hc. unfold generateImage, logPrompt. rewrite H, Hc. reflexivity.
Qed.

Lemma first_without_bytes
  (response : GenerateImagesResponse) (first : GeneratedImage)
  (rest : list GeneratedImage) :
  generatedImages response = Some (first :: rest) ->
  carriesBytes first = false ->
  firstImageBytes response = None.
Proof.
  unfold firstImageBytes, carriesBytes. intros -> H.
  destruct (image first) as [img|]; [|reflexivity].
  destruct (imageBytes img) as [bytes|]; [|reflexivity].
  apply negb_false_iff in H. rewrite H. reflexivity.
Qed.

Lemma missingBytes_no_first (response : GenerateImagesResponse) :
  missingBytes response = true -> firstImageBytes response = None.
Proof.
  unfold missingBytes.
  destruct (generatedImages response) as [[|first rest]|] eqn:E.
  - intros _. unfold firstImageBytes. rewrite E. reflexivity.
  - cbn [existsb]. intros H. apply negb_true_iff, orb_false_iff in H.
    exact (first_without_bytes _ E (proj1 H)).
  - intros _. unfold firstImageBytes. rewrite E. reflexivity.
Qed.

Lemma imageResult_no_first (response : GenerateImagesResponse) :
  firstImageBytes response = None -> imageResult (Return response) = Return None.
Proof. intros H. cbn [imageResult]. rewrite H. reflexivity. Qed.

Lemma imageResult_failed (outcome : completion GenerateImagesResponse) :
  upstreamFailed outcome = true -> isAuthError outcome = false ->
  imageResult outcome = Return None.
Proof.
  destruct outcome as [response|[message|]]; cbn [upstreamFailed isAuthError].
  - intros H _. apply imageResult_no_first, missingBytes_no_first, H.
  - intros _ H. cbn [imageResult]. rewrite H. reflexivity.
  - reflexivity.
Qed.

Lemma imageResult_auth (outcome : completion GenerateImagesResponse) :
  isAuthError outcome = true ->
  imageResult outcome = Throw (JsError imageKeyErrorMessage).
Proof.
  destruct outcome as [response|[message|]]; simpl; try discriminate.
  intros ->. reflexivity.
Qed.

(** C4, as the code has it.  For the empty prompt the Image Generator
    answers no image and makes no upstream call; every other prompt
    string, one of white space only included, is sent upstream. *)
Theorem generateImage_empty_prompt (env : Env) (log : list Call) :
  generateImage env (VString []) log = (Return None, log)
  /\ (forall s, s <> [] ->
       snd (generateImage env (VString s) log)
       = log ++ [CallGenerateImages imageModelName (VString s)]).
Proof.
  split; [apply generateImage_falsy; reflexivity|].
  intros s Hs. rewrite generateImage_truthy; [reflexivity| |reflexivity].
  destruct s; [contradiction | reflexivity].
Qed.

Lemma generateImage_empty_prompt_witness :
  generateImage env0 (VString []) [] = (Return None, [])
  /\ lit "sunrise" <> []
  /\ snd (generateImage env0 (VString (lit "sunrise")) [])
     = [CallGenerateImages imageModelName (VString (lit "sunrise"))].
Proof.
  pose proof (@generateImage_empty_prompt env0 []) as [H0 H1].
  split; [exact H0|]. split; [discriminate|].
  apply (H1 (lit "sunrise")). discriminate.
Defined.

(** C4 as stated fails: a prompt of one space is white space only, and it
    is sent upstream. *)
Lemma whitespace_prompt_is_sent_upstream :
  allWs (lit " ") = true /\
  generateImage env0 (VString (lit " ")) [] =
  (Return (Some (lit "data:image/jpeg;base64,XYZ")),
   [CallGenerateImages imageModelName (VString (lit " "))]).
Proof. split; reflexivity. Qed.

(* ================================================================= *)
(** ** The content generator *)

Lemma generateBlogPostContent_cases (env : Env) (topic : jsstring) (log : list Call) :
  generateBlogPostContent env topic log =
  match generateContent env (blogPrompt topic) with
  | Throw e => (Throw (rethrown e), log ++ [textCall topic])
  | Return text =>
      match parseResponseText text with
      | Throw e => (Throw (rethrown e), log ++ [textCall topic])
      | Return content =>
          if truthy (BlogPostContent.imagePrompt content) then
            match generateImage env (BlogPostContent.imagePrompt content)
                                (log ++ [textCall topic]) with
            | (Return url, log') =>
                (Return {| blogContent := content; imageUrl := url |}, log')
            | (Throw e, log') => (Throw (rethrown e), log')
            end
          else (Return {| blogContent := content; imageUrl := None |},
                log ++ [textCall topic])
      end
  end.
Proof.
  unfold generateBlogPostContent, tryCatch, bind, callGenerateContent, lift, ret,
    throw, textCall, rethrown.
  destruct (generateContent env (blogPrompt topic)) as [text|[m|]].
  - destruct (parseResponseText text) as [content|[m|]].
    + destruct (truthy (BlogPostContent.imagePrompt content)).
      * destruct (generateImage env _ _) as [[url|[m|]] log'];
          try reflexivity.
        destruct (includes m apiKeyMarker); reflexivity.
      * reflexivity.
    + destruct (includes m apiKeyMarker); reflexivity.
    + reflexivity.
  - destruct (includes m apiKeyMarker); reflexivity.
  - reflexivity.
Qed.

Lemma rethrown_is_error (e : thrown) : exists message, rethrown e = JsError message.
Proof.
  destruct e as [m|]; simpl; [destruct (includes m apiKeyMarker)|]; eauto.
Qed.

Lemma generateBlogPostContent_throws_error
  (env : Env) (topic : jsstring) (log log' : list Call) (e : thrown) :
  generateBlogPostContent env topic log = (Throw e, log') ->
  exists message, e = JsError message.
Proof.
  rewrite generateBlogPostContent_cases.
  destruct (generateContent env (blogPrompt topic)) as [text|e0].
  2:{ intros H; inversion H. apply rethrown_is_error. }
  destruct (parseResponseText text) as [content|e0].
  2:{ intros H; inversion H. apply rethrown_is_error. }
  destruct (truthy _); [|discriminate].
  destruct (generateImage env _ _) as [[url|e0] l]; [discriminate|].
  intros H; inversion H. apply rethrown_is_error.
Qed.

(* ================================================================= *)
(** ** The coordinator *)

Lemma begin_accepted (st : AppState) :
  accepted st = true ->
  handleGeneratePost_begin st
  = (setError None (setIsGenerating true st), Some (topic st)).
Proof.
  unfold accepted, handleGeneratePost_begin.
  rewrite andb_true_iff, !negb_true_iff. intros [-> ->]. reflexivity.
Qed.

Lemma begin_refused (st : AppState) :
  accepted st = false -> handleGeneratePost_begin st = (st, None).
Proof.
  unfold accepted, handleGeneratePost_begin.
  destruct (Nat.eqb _ 0), (isGenerating st); simpl; try discriminate; reflexivity.
Qed.

Lemma handleGeneratePost_accepted (env : Env) (st : AppState) (log : list Call) :
  accepted st = true ->
  handleGeneratePost env st log =
  (handleGeneratePost_settle env (fst (generateBlogPostContent env (topic st) log))
     (setError None (setIsGenerating true st)),
   snd (generateBlogPostContent env (topic st) log)).
Proof.
  intros H. unfold handleGeneratePost. rewrite (begin_accepted st H).
  destruct (generateBlogPostContent env (topic st) log); reflexivity.
Qed.

Section ImageFailure.
Variables (env : Env) (st : AppState) (log : list Call).
Variables (text : jsstring) (content : BlogPostContent.t).

(** The submission is accepted, text generation answers [text], which
    parses to [content], and [content] carries an image prompt that
    reaches the upstream call: it is truthy and its conversion for the log
    line does not throw (that of a string never does). *)
Hypothesis Haccepted : accepted st = true.
Hypothesis Htext : generateContent env (blogPrompt (topic st)) = Return (Some text).
Hypothesis Hparse : parseGeminiJsonResponse text = Return content.
Hypothesis Hprompt : truthy (BlogPostContent.imagePrompt content) = true.
Hypothesis Hsent : toStringThrows (BlogPostContent.imagePrompt content) = false.

Lemma generated_with_image_call :
  generateBlogPostContent env (topic st) log =
  (match imageResult (generateImages env (BlogPostContent.imagePrompt content)) with
   | Return url => Return {| blogContent := content; imageUrl := url |}
   | Throw e => Throw (rethrown e)
   end,
   (log ++ [textCall (topic st)])
     ++ [CallGenerateImages imageModelName (BlogPostContent.imagePrompt content)]).
Proof.
  rewrite generateBlogPostContent_cases, Htext. cbn [parseResponseText].
  rewrite Hparse, Hprompt.
  rewrite generateImage_truthy by assumption.
  destruct (imageResult _); reflexivity.
Qed.

Lemma absorbed_image_failure :
  imageResult (generateImages env (BlogPostContent.imagePrompt content)) = Return None ->
  fst (generateImage env (BlogPostContent.imagePrompt content) log) = Return None
  /\ postedWithoutImage content st (fst (handleGeneratePost env st log)).
Proof.
  intros H.
  rewrite (handleGeneratePost_accepted env st log Haccepted).
  rewrite generated_with_image_call.
  rewrite (generateImage_truthy env _ log Hprompt Hsent), H. cbn [fst].
  split; [reflexivity|]. split; [|split; reflexivity].
  eexists. split; [reflexivity|]. repeat split; reflexivity.
Qed.

(** C5.  The image prompt having reached the upstream call: a failure of
    that call that is no authentication error (it threw, or its response
    misses the bytes) makes the Image Generator answer no image, and the
    post is created without an image reference; so does a response whose
    first image has no bytes, whatever the later ones carry.  An
    authentication error is thrown on, reaches the coordinator as an error
    of the Content Generator does, and no post is created. *)
Theorem image_failure_is_absorbed_unless_auth :
  let prompt := BlogPostContent.imagePrompt content in
  let outcome := generateImages env prompt in
  let st' := fst (handleGeneratePost env st log) in
  (upstreamFailed outcome = true -> isAuthError outcome = false ->
     fst (generateImage env prompt log) = Return None
     /\ postedWithoutImage content st st')
  /\
  (forall response first rest,
     outcome = Return response ->
     generatedImages response = Some (first :: rest) ->
     carriesBytes first = false ->
     fst (generateImage env prompt log) = Return None
     /\ postedWithoutImage content st st')
  /\
  (isAuthError outcome = true ->
     fst (generateImage env prompt log) = Throw (JsError imageKeyErrorMessage)
     /\ posts st' = posts st
     /\ error st' = Some (lit "Gemini API error: " ++ imageKeyErrorMessage)
     /\ isGenerating st' = false).
Proof.
  intros prompt outcome st'. subst prompt st'.
  split; [|split].
  - intros Hf Hn. apply absorbed_image_failure. exact (imageResult_failed _ Hf Hn).
  - intros response first rest Ho Hg Hb. apply absorbed_image_failure.
    fold outcome. rewrite Ho.
    exact (imageResult_no_first _ (first_without_bytes _ Hg Hb)).
  - intros Ha.
    rewrite (handleGeneratePost_accepted env st log Haccepted).
    rewrite generated_with_image_call.
    rewrite (generateImage_truthy env _ log Hprompt Hsent). fold outcome.
    rewrite (imageResult_auth _ Ha).
    repeat split; reflexivity.
Qed.
End ImageFailure.

Lemma image_failure_is_absorbed_unless_auth_witness :
  (accepted (idle (lit "The Future of AI")) = true /\
   generateContent envNoBytes (blogPrompt (lit "The Future of AI"))
     = Return (Some payloadTCP) /\
   parseGeminiJsonResponse payloadTCP
     = Return (BlogPostContent.Build (lit "T") (lit "C") (VString (lit "P"))) /\
   truthy (VString (lit "P")) = true /\
   toStringThrows (VString (lit "P")) = false /\
   upstreamFailed (generateImages envNoBytes (VString (lit "P"))) = true /\
   isAuthError (generateImages envNoBytes (VString (lit "P"))) = false) /\
  fst (generateImage envNoBytes (VString (lit "P")) []) = Return None /\
  exists post,
    posts (fst (handleGeneratePost envNoBytes (idle (lit "The Future of AI")) []))
      = [post] /\
    BlogPost.imageUrl post = None /\
    BlogPost.title post = lit "T" /\
    BlogPost.content post = lit "C".
Proof.
  split; [repeat split; reflexivity|].
  pose proof (@image_failure_is_absorbed_unless_auth
                envNoBytes (idle (lit "The Future of AI")) [] payloadTCP
                (BlogPostContent.Build (lit "T") (lit "C") (VString (lit "P")))
                eq_refl eq_refl eq_refl eq_refl eq_refl) as [H _].
  destruct (H eq_refl eq_refl) as (H1 & H2 & _).
  split; [exact H1 | exact H2].
Defined.

Lemma begin_in_flight (st : AppState) :
  isGenerating st = true -> handleGeneratePost_begin st = (st, None).
Proof.
  intros H. unfold handleGeneratePost_begin. rewrite H, orb_true_r. reflexivity.
Qed.

Lemma settle_clears_flag (env : Env) (outcome : completion Generated) (st : AppState) :
  isGenerating (handleGeneratePost_settle env outcome st) = false.
Proof. reflexivity. Qed.

Lemma settle_failure (env : Env) (e : thrown) (st : AppState) :
  handleGeneratePost_settle env (Throw e) st
  = setIsGenerating false (setError (Some (shownMessage e)) st).
Proof. destruct e; reflexivity. Qed.

(** C7.  While a generation is in flight a submission changes nothing and
    starts nothing, however often it is repeated; and the completion of the
    generation in flight, with a result or with an error, clears the flag. *)
Theorem submission_in_flight_is_ignored (env : Env) (st : AppState) :
  isGenerating st = true ->
  handleGeneratePost_begin st = (st, None)
  /\ (forall log, handleGeneratePost env st log = (st, log))
  /\ (forall n, fold_left (step env) (repeat Submit n) st = st)
  /\ (forall outcome,
        isGenerating (handleGeneratePost_settle env outcome st) = false).
Proof.
  intros H. pose proof (begin_in_flight st H) as Hb.
  split; [exact Hb|]. split; [|split].
  - intros log. unfold handleGeneratePost. rewrite Hb. reflexivity.
  - intros n. induction n as [|n IH]; [reflexivity|].
    cbn [repeat fold_left step]. rewrite Hb. exact IH.
  - intros outcome. apply settle_clears_flag.
Qed.

Lemma submission_in_flight_is_ignored_witness :
  isGenerating (busy (lit "Rust")) = true /\
  handleGeneratePost env0 (busy (lit "Rust")) [] = (busy (lit "Rust"), []).
Proof.
  split; [reflexivity|].
  apply (proj1 (proj2 (@submission_in_flight_is_ignored env0 (busy (lit "Rust")) eq_refl))).
Defined.

(** C8.  When the Content Generator fails, what it threw is an [Error]
    and its message becomes the error state; the post list is what it was
    and the in-flight flag is cleared.  The same holds for the completion
    handler on its own, in whatever state the failure arrives. *)
Theorem content_failure_keeps_posts
  (env : Env) (st : AppState) (log log' : list Call) (e : thrown) :
  accepted st = true ->
  generateBlogPostContent env (topic st) log = (Throw e, log') ->
  (exists message,
     e = JsError message /\
     error (fst (handleGeneratePost env st log)) = Some message)
  /\ posts (fst (handleGeneratePost env st log)) = posts st
  /\ isGenerating (fst (handleGeneratePost env st log)) = false
  /\ (forall st0,
        posts (handleGeneratePost_settle env (Throw e) st0) = posts st0 /\
        isGenerating (handleGeneratePost_settle env (Throw e) st0) = false /\
        error (handleGeneratePost_settle env (Throw e) st0) = Some (shownMessage e)).
Proof.
  intros Ha Hg.
  rewrite (handleGeneratePost_accepted env st log Ha), Hg. cbn [fst].
  rewrite settle_failure.
  destruct (generateBlogPostContent_throws_error _ _ _ Hg) as [message ->].
  split; [exists message; split; reflexivity|].
  split; [reflexivity|]. split; [reflexivity|].
  intros st0. repeat split; reflexivity.
Qed.

Lemma content_failure_keeps_posts_witness :
  (accepted (idle (lit "Rust")) = true /\
   generateBlogPostContent envTextDown (topic (idle (lit "Rust"))) []
   = (Throw (JsError (lit "Gemini API error: 503 Service Unavailable")),
      [textCall (lit "Rust")])) /\
  posts (fst (handleGeneratePost envTextDown (idle (lit "Rust")) []))
  = posts (idle (lit "Rust")).
Proof.
  split; [split; reflexivity|].
  apply (proj1 (proj2 (@content_failure_keeps_posts envTextDown (idle (lit "Rust")) []
                         [textCall (lit "Rust")]
                         (JsError (lit "Gemini API error: 503 Service Unavailable"))
                         eq_refl eq_refl))).
Defined.

(** C10.  The topic field is emptied by a generation that succeeds and by
    nothing else in the handler: a refused submission and a failed
    generation leave it as it was. *)
Theorem topic_cleared_only_on_success (env : Env) (st : AppState) (log : list Call) :
  (forall data, topic (handleGeneratePost_settle env (Return data) st) = [])
  /\ (forall e, topic (handleGeneratePost_settle env (Throw e) st) = topic st)
  /\ match handleGeneratePost_begin st with
     | (_, None) => fst (handleGeneratePost env st log) = st
     | (_, Some t) =>
         match fst (generateBlogPostContent env t log) with
         | Return _ => topic (fst (handleGeneratePost env st log)) = []
         | Throw _ => topic (fst (handleGeneratePost env st log)) = topic st
         end
     end.
Proof.
  split; [reflexivity|]. split; [intros [m|]; reflexivity|].
  unfold handleGeneratePost.
  destruct (accepted st) eqn:Ha.
  - rewrite (begin_accepted st Ha).
    destruct (generateBlogPostContent env (topic st) log) as [[data|[m|]] log'];
      reflexivity.
  - rewrite (begin_refused st Ha). reflexivity.
Qed.

Lemma payloadTCP_parses :
  parseGeminiJsonResponse payloadTCP
  = Return (BlogPostContent.Build (lit "T") (lit "C") (VString (lit "P"))).
Proof. reflexivity. Qed.

(** C9.  The worked example: topic The Future of AI, a text response with
    title T, content C and image prompt P, and an image call that returns
    the bytes XYZ. *)
Theorem future_of_ai_example (env : Env) (st : AppState) (log : list Call) :
  topic st = lit "The Future of AI" ->
  isGenerating st = false ->
  generateContent env (blogPrompt (lit "The Future of AI")) = Return (Some payloadTCP) ->
  generateImages env (VString (lit "P")) = Return (imagesOf (lit "XYZ")) ->
  posts (fst (handleGeneratePost env st log)) =
    {| BlogPost.id := ofZ (Date_now env);
       BlogPost.title := lit "T";
       BlogPost.content := lit "C";
       BlogPost.excerpt := lit "C...";
       BlogPost.date := toLocaleDateString env;
       BlogPost.imageUrl := Some (lit "data:image/jpeg;base64,XYZ") |} :: posts st
  /\ snd (handleGeneratePost env st log) =
       log ++ [textCall (lit "The Future of AI");
               CallGenerateImages imageModelName (VString (lit "P"))].
Proof.
  intros Ht Hg Htext Himg.
  assert (Ha : accepted st = true) by (unfold accepted; rewrite Ht, Hg; reflexivity).
  rewrite (handleGeneratePost_accepted env st log Ha), Ht.
  rewrite generateBlogPostContent_cases, Htext. cbn [parseResponseText].
  rewrite payloadTCP_parses.
  cbn [BlogPostContent.imagePrompt].
  change (truthy (VString (lit "P"))) with true. cbv iota.
  rewrite generateImage_truthy by reflexivity.
  rewrite Himg. cbn [fst snd].
  split; [reflexivity|].
  rewrite <- app_assoc. reflexivity.
Qed.

Lemma future_of_ai_example_witness :
  (topic (idle (lit "The Future of AI")) = lit "The Future of AI" /\
   isGenerating (idle (lit "The Future of AI")) = false /\
   generateContent env0 (blogPrompt (lit "The Future of AI")) = Return (Some payloadTCP) /\
   generateImages env0 (VString (lit "P")) = Return (imagesOf (lit "XYZ"))) /\
  posts (fst (handleGeneratePost env0 (idle (lit "The Future of AI")) [])) =
    [ {| BlogPost.id := lit "1718000000000";
         BlogPost.title := lit "T";
         BlogPost.content := lit "C";
         BlogPost.excerpt := lit "C...";
         BlogPost.date := lit "June 10, 2024";
         BlogPost.imageUrl := Some (lit "data:image/jpeg;base64,XYZ") |} ].
Proof.
  split; [repeat split; reflexivity|].
  apply (proj1 (@future_of_ai_example env0 (idle (lit "The Future of AI")) []
                  eq_refl eq_refl eq_refl eq_refl)).
Defined.

(* ================================================================= *)
(** ** Further properties of the service *)

Lemma trimEnd_app_allWs (a w : jsstring) :
  allWs w = true -> trimEnd (a ++ w) = trimEnd a.
Proof.
  intros Hw. induction a as [|x a IH]; cbn [app trimEnd].
  - apply trimEnd_nil_allWs. exact Hw.
  - rewrite IH. reflexivity.
Qed.

Lemma trim_surrounded (before s after : jsstring) :
  allWs before = true -> allWs after = true ->
  trim (before ++ s ++ after) = trim s.
Proof.
  intros Hb Ha. unfold trim. rewrite (trimStart_allWs _ _ Hb).
  destruct (trimStart s) as [|c r] eqn:E.
  - apply trimStart_nil_allWs in E.
    rewrite (trimStart_allWs _ _ E).
    assert (H : trimStart after = []) by (apply trimStart_nil_allWs; exact Ha).
    rewrite H. reflexivity.
  - rewrite (trimStart_app_cons _ after E).
    apply trimEnd_app_allWs. exact Ha.
Qed.

(** X1.  White space around a response never changes what the parser
    makes of it. *)
Theorem parse_ignores_surrounding_white_space (before responseText after : jsstring) :
  allWs before = true -> allWs after = true ->
  parseGeminiJsonResponse (before ++ responseText ++ after)
  = parseGeminiJsonResponse responseText.
Proof.
  intros Hb Ha. apply parse_congr. unfold jsonText.
  rewrite trim_surrounded by assumption. reflexivity.
Qed.

Lemma parse_ignores_surrounding_white_space_witness :
  allWs (lit "  ") = true /\ allWs [10; 9]%N = true /\
  parseGeminiJsonResponse (lit "  " ++ payloadTC ++ [10; 9]%N)
  = parseGeminiJsonResponse payloadTC.
Proof.
  split; [reflexivity|]. split; [reflexivity|].
  apply (@parse_ignores_surrounding_white_space (lit "  ") payloadTC [10; 9]%N);
    reflexivity.
Defined.

(** X2.  A response whose JSON is not an object (null, a number, a
    string, a boolean, an array) is rejected. *)
Theorem parse_rejects_non_objects (responseText : jsstring) (parsed : value) :
  JSON.parse (jsonText responseText) = Some parsed ->
  isObject parsed = false ->
  parseGeminiJsonResponse responseText = Throw (JsError parseErrorMessage).
Proof.
  intros Hp Ho. rewrite parse_cases, Hp.
  destruct parsed; try discriminate; reflexivity.
Qed.

Lemma parse_rejects_non_objects_witness :
  (JSON.parse (jsonText (lit "null")) = Some VNull /\ isObject VNull = false) /\
  parseGeminiJsonResponse (lit "null") = Throw (JsError parseErrorMessage).
Proof.
  split; [split; reflexivity|].
  apply (@parse_rejects_non_objects (lit "null") VNull); reflexivity.
Defined.

(** X3.  What [generateImage] can answer.  It makes no call or the one
    call for its prompt.  An image reference is the data URI of the bytes
    of the first image of the response, which are not empty; later images
    are not looked at.  The only error it throws is the invalid-key error,
    and only when the upstream error carries the marker. *)
Theorem generateImage_outcomes
  (env : Env) (prompt : value) (log log' : list Call)
  (result : completion (option jsstring)) :
  generateImage env prompt log = (result, log') ->
  (log' = log \/ log' = log ++ [CallGenerateImages imageModelName prompt])
  /\ (forall url, result = Return (Some url) ->
        exists first rest img bytes,
          generateImages env prompt = Return {| generatedImages := Some (first :: rest) |}
          /\ image first = Some img /\ imageBytes img = Some bytes
          /\ bytes <> [] /\ url = dataUriPrefix ++ bytes)
  /\ (forall e, result = Throw e ->
        e = JsError imageKeyErrorMessage /\
        exists message, generateImages env prompt = Throw (JsError message)
                        /\ includes message apiKeyMarker = true).
Proof.
  destruct (truthy prompt) eqn:Ht; [destruct (toStringThrows prompt) eqn:Hc|].
  - rewrite (generateImage_unconvertible env prompt log Ht Hc).
    intros H; inversion H; subst; clear H.
    split; [left; reflexivity|]. split; discriminate.
  - rewrite (generateImage_truthy env prompt log Ht Hc).
    intros H; inversion H; subst; clear H.
    split; [right; reflexivity|].
    destruct (generateImages env prompt) as [[[[|first rest]|]]|[message|]];
      cbn [imageResult firstImageBytes generatedImages]; split; try discriminate.
    + intros url.
      destruct first as [[[[[|b bytes]|]]|]]; cbn; try discriminate.
      intros H; inversion H; subst.
      exists {| image := Some {| imageBytes := Some (b :: bytes) |} |}, rest,
             {| imageBytes := Some (b :: bytes) |}, (b :: bytes).
      repeat split; discriminate.
    + intros e. destruct first as [[[[[|b bytes]|]]|]]; cbn; discriminate.
    + intros url. destruct (includes message apiKeyMarker); discriminate.
    + intros e. destruct (includes message apiKeyMarker) eqn:Ei; [|discriminate].
      intros H; inversion H; subst. split; [reflexivity|]. eauto.
  - rewrite (generateImage_falsy env prompt log Ht).
    intros H; inversion H; subst; clear H.
    split; [left; reflexivity|]. split; discriminate.
Qed.

Lemma generateImage_outcomes_witness :
  generateImage envTwoImages (VString (lit "P")) []
    = (Return (Some (lit "data:image/jpeg;base64,AAA")),
       [CallGenerateImages imageModelName (VString (lit "P"))]) /\
  exists first rest img bytes,
    generateImages envTwoImages (VString (lit "P"))
      = Return {| generatedImages := Some (first :: rest) |}
    /\ image first = Some img /\ imageBytes img = Some bytes
    /\ bytes <> [] /\ lit "data:image/jpeg;base64,AAA" = dataUriPrefix ++ bytes.
Proof.
  split; [reflexivity|].
  apply (proj1 (proj2 (@generateImage_outcomes envTwoImages (VString (lit "P")) [] _ _
                         eq_refl))).
  reflexivity.
Defined.

(** X4.  When the text capability throws, the Content Generator stops
    after that one call and rethrows by kind: an [Error] with the
    invalid-key marker as the invalid-key error, any other [Error] with
    its message behind a prefix, anything else as the unknown error. *)
Theorem generateBlogPostContent_text_failure
  (env : Env) (topic : jsstring) (log : list Call) (e : thrown) :
  generateContent env (blogPrompt topic) = Throw e ->
  snd (generateBlogPostContent env topic log) = log ++ [textCall topic]
  /\ (forall message, e = JsError message -> includes message apiKeyMarker = true ->
        fst (generateBlogPostContent env topic log) = Throw (JsError keyErrorMessage))
  /\ (forall message, e = JsError message -> includes message apiKeyMarker = false ->
        fst (generateBlogPostContent env topic log)
        = Throw (JsError (lit "Gemini API error: " ++ message)))
  /\ (e = NonError ->
        fst (generateBlogPostContent env topic log) = Throw (JsError unknownErrorMessage)).
Proof.
  intros He. rewrite generateBlogPostContent_cases, He. cbn [fst snd].
  split; [reflexivity|]. split; [|split].
  - intros m -> Hi. cbn [rethrown]. rewrite Hi. reflexivity.
  - intros m -> Hi. cbn [rethrown]. rewrite Hi. reflexivity.
  - intros ->. reflexivity.
Qed.

Lemma generateBlogPostContent_text_failure_witness :
  generateContent envTextBadKey (blogPrompt (lit "Rust"))
    = Throw (JsError (lit "API key not valid. Please pass a valid API key.")) /\
  includes (lit "API key not valid. Please pass a valid API key.") apiKeyMarker = true /\
  generateBlogPostContent envTextBadKey (lit "Rust") []
    = (Throw (JsError keyErrorMessage), [textCall (lit "Rust")]).
Proof.
  split; [reflexivity|]. split; [reflexivity|].
  pose proof (@generateBlogPostContent_text_failure envTextBadKey (lit "Rust") [] _ eq_refl)
    as (Hlog & Hkey & _).
  specialize (Hkey _ eq_refl eq_refl).
  destruct (generateBlogPostContent envTextBadKey (lit "Rust") []) as [r l].
  cbn [fst snd] in *. rewrite Hlog, Hkey. reflexivity.
Defined.

(** X5.  A text response that is a string and that the parser rejects
    ends the generation with the parser's message behind the prefix; a
    response without text ends it with the message of the [TypeError] that
    trimming [undefined] throws, behind the same prefix.  In both cases no
    image is asked for. *)
Theorem generateBlogPostContent_parse_failure
  (env : Env) (topic : jsstring) (log : list Call) :
  (forall text e,
     generateContent env (blogPrompt topic) = Return (Some text) ->
     parseGeminiJsonResponse text = Throw e ->
     generateBlogPostContent env topic log
     = (Throw (JsError (lit "Gemini API error: " ++ parseErrorMessage)),
        log ++ [textCall topic]))
  /\ (generateContent env (blogPrompt topic) = Return None ->
      generateBlogPostContent env topic log
      = (Throw (JsError (lit "Gemini API error: " ++ undefinedTextMessage)),
         log ++ [textCall topic])).
Proof.
  split.
  - intros text e Ht Hp. rewrite generateBlogPostContent_cases, Ht.
    cbn [parseResponseText]. rewrite Hp, (parse_throw_inv _ Hp). reflexivity.
  - intros Ht. rewrite generateBlogPostContent_cases, Ht. reflexivity.
Qed.

Lemma generateBlogPostContent_parse_failure_witness :
  ((generateContent envNotJson (blogPrompt (lit "Rust"))
      = Return (Some (lit "Sorry, I cannot help with that.")) /\
    parseGeminiJsonResponse (lit "Sorry, I cannot help with that.")
      = Throw (JsError parseErrorMessage)) /\
   generateBlogPostContent envNotJson (lit "Rust") []
   = (Throw (JsError (lit "Gemini API error: " ++ parseErrorMessage)),
      [textCall (lit "Rust")]))
  /\
  (generateContent envNoText (blogPrompt (lit "Rust")) = Return None /\
   generateBlogPostContent envNoText (lit "Rust") []
   = (Throw (JsError (lit "Gemini API error: " ++ undefinedTextMessage)),
      [textCall (lit "Rust")])).
Proof.
  split.
  - split; [split; reflexivity|].
    apply (proj1 (@generateBlogPostContent_parse_failure envNotJson (lit "Rust") [])
             (lit "Sorry, I cannot help with that.") (JsError parseErrorMessage));
      reflexivity.
  - split; [reflexivity|].
    apply (proj2 (@generateBlogPostContent_parse_failure envNoText (lit "Rust") [])).
    reflexivity.
Defined.

(** X6.  A response without an image prompt (absent, or a falsy value)
    gives the content with no image reference after the text call
    alone. *)
Theorem generateBlogPostContent_without_image_prompt
  (env : Env) (topic text : jsstring) (log : list Call) (content : BlogPostContent.t) :
  generateContent env (blogPrompt topic) = Return (Some text) ->
  parseGeminiJsonResponse text = Return content ->
  truthy (BlogPostContent.imagePrompt content) = false ->
  generateBlogPostContent env topic log
  = (Return {| blogContent := content; imageUrl := None |}, log ++ [textCall topic]).
Proof.
  intros Ht Hp Hf. rewrite generateBlogPostContent_cases, Ht.
  cbn [parseResponseText]. rewrite Hp, Hf. reflexivity.
Qed.

Lemma generateBlogPostContent_without_image_prompt_witness :
  (generateContent envEmptyFields (blogPrompt (lit "Rust"))
     = Return (Some payloadEmptyFields) /\
   parseGeminiJsonResponse payloadEmptyFields
     = Return (BlogPostContent.Build [] [] VUndefined) /\
   truthy VUndefined = false) /\
  generateBlogPostContent envEmptyFields (lit "Rust") []
  = (Return {| blogContent := BlogPostContent.Build [] [] VUndefined; imageUrl := None |},
     [textCall (lit "Rust")]).
Proof.
  split; [repeat split; reflexivity|].
  apply (@generateBlogPostContent_without_image_prompt envEmptyFields (lit "Rust")
           payloadEmptyFields [] (BlogPostContent.Build [] [] VUndefined));
    reflexivity.
Defined.

(** X7.  The calls of one generation: the text call comes first, and at
    most one image call follows, made only for the truthy image prompt of
    a response that parsed. *)
Theorem generateBlogPostContent_calls (env : Env) (topic : jsstring) (log : list Call) :
  snd (generateBlogPostContent env topic log) = log ++ [textCall topic]
  \/ exists text content,
       generateContent env (blogPrompt topic) = Return (Some text)
       /\ parseGeminiJsonResponse text = Return content
       /\ truthy (BlogPostContent.imagePrompt content) = true
       /\ snd (generateBlogPostContent env topic log)
          = log ++ [textCall topic;
                    CallGenerateImages imageModelName (BlogPostContent.imagePrompt content)].
Proof.
  rewrite generateBlogPostContent_cases.
  destruct (generateContent env (blogPrompt topic)) as [[text|]|e];
    [|left; reflexivity|left; reflexivity].
  cbn [parseResponseText].
  destruct (parseGeminiJsonResponse text) as [content|e] eqn:Hp; [|left; reflexivity].
  destruct (truthy (BlogPostContent.imagePrompt content)) eqn:Ht; [|left; reflexivity].
  destruct (toStringThrows (BlogPostContent.imagePrompt content)) eqn:Hc.
  - left. rewrite (generateImage_unconvertible env _ _ Ht Hc). reflexivity.
  - right. exists text, content. repeat split; try assumption.
    rewrite (generateImage_truthy env _ _ Ht Hc).
    destruct (imageResult _); cbn [snd]; rewrite <- app_assoc; reflexivity.
Qed.

(** X8.  A generation that succeeds went through a text response that
    parsed to its content, and it has an image reference only if the
    image call answered bytes, of which the reference is the data URI. *)
Theorem generateBlogPostContent_success
  (env : Env) (topic : jsstring) (log log' : list Call) (data : Generated) :
  generateBlogPostContent env topic log = (Return data, log') ->
  exists text,
    generateContent env (blogPrompt topic) = Return (Some text)
    /\ parseGeminiJsonResponse text = Return (blogContent data)
    /\ (forall url, imageUrl data = Some url ->
          truthy (BlogPostContent.imagePrompt (blogContent data)) = true /\
          exists response bytes,
            generateImages env (BlogPostContent.imagePrompt (blogContent data))
              = Return response
            /\ firstImageBytes response = Some bytes
            /\ url = dataUriPrefix ++ bytes).
Proof.
  rewrite generateBlogPostContent_cases.
  destruct (generateContent env (blogPrompt topic)) as [[text|]|e];
    [|discriminate|discriminate].
  cbn [parseResponseText].
  destruct (parseGeminiJsonResponse text) as [content|e] eqn:Hp; [|discriminate].
  destruct (truthy (BlogPostContent.imagePrompt content)) eqn:Ht;
    [destruct (toStringThrows (BlogPostContent.imagePrompt content)) eqn:Hc|].
  - rewrite (generateImage_unconvertible env _ _ Ht Hc).
    intros H; inversion H; subst; clear H. exists text.
    split; [reflexivity|]. split; [exact Hp|]. discriminate.
  - rewrite (generateImage_truthy env _ _ Ht Hc).
    destruct (generateImages env (BlogPostContent.imagePrompt content))
      as [response|[m|]] eqn:Hi; cbn [imageResult].
    + destruct (firstImageBytes response) as [bytes|] eqn:Hb;
        intros H; inversion H; subst; clear H; exists text;
        (split; [reflexivity|]; split; [exact Hp|]); cbn [imageUrl blogContent].
      * intros url Hu; inversion Hu; subst. split; [exact Ht|].
        exists response, bytes. rewrite Hi. auto.
      * discriminate.
    + destruct (includes m apiKeyMarker); [discriminate|].
      intros H; inversion H; subst; clear H. exists text.
      split; [reflexivity|]. split; [exact Hp|]. discriminate.
    + intros H; inversion H; subst; clear H. exists text.
      split; [reflexivity|]. split; [exact Hp|]. discriminate.
  - intros H; inversion H; subst; clear H. exists text.
    split; [reflexivity|]. split; [exact Hp|]. discriminate.
Qed.

Lemma generateBlogPostContent_success_witness :
  generateBlogPostContent env0 (lit "Rust") []
  = (Return {| blogContent := BlogPostContent.Build (lit "T") (lit "C") (VString (lit "P"));
               imageUrl := Some (lit "data:image/jpeg;base64,XYZ") |},
     [textCall (lit "Rust"); CallGenerateImages imageModelName (VString (lit "P"))]) /\
  exists text,
    generateContent env0 (blogPrompt (lit "Rust")) = Return (Some text)
    /\ parseGeminiJsonResponse text
       = Return (BlogPostContent.Build (lit "T") (lit "C") (VString (lit "P"))).
Proof.
  split; [reflexivity|].
  destruct (@generateBlogPostContent_success env0 (lit "Rust") [] _ _ eq_refl)
    as (text & H1 & H2 & _).
  exists text. split; assumption.
Defined.

Lemma generateInitialWelcomePost_log (env : Env) (log : list Call) :
  snd (generateInitialWelcomePost env log) = log ++ [welcomeCall].
Proof.
  unfold generateInitialWelcomePost, tryCatch, bind, callGenerateContent, lift, throw,
    welcomeCall.
  destruct (generateContent env welcomePrompt) as [text|[m|]]; [|reflexivity|reflexivity].
  destruct (parseResponseText text) as [content|[m|]]; reflexivity.
Qed.

(** X9.  The welcome variant makes the one text call for its fixed prompt
    and never an image call, whatever the response carries; it succeeds
    exactly when that response has a text that parses; and every [Error]
    is rethrown with its message behind the welcome prefix: that of the
    upstream call, an invalid-key error too, that of the parser, and the
    [TypeError] of a response without text. *)
Theorem generateInitialWelcomePost_behaviour (env : Env) (log : list Call) :
  snd (generateInitialWelcomePost env log) = log ++ [welcomeCall]
  /\ (forall content,
        fst (generateInitialWelcomePost env log) = Return content <->
        exists text, generateContent env welcomePrompt = Return (Some text)
                     /\ parseGeminiJsonResponse text = Return content)
  /\ (forall message,
        generateContent env welcomePrompt = Throw (JsError message) ->
        fst (generateInitialWelcomePost env log)
        = Throw (JsError (welcomeErrorPrefix ++ message)))
  /\ (forall text e,
        generateContent env welcomePrompt = Return (Some text) ->
        parseGeminiJsonResponse text = Throw e ->
        fst (generateInitialWelcomePost env log)
        = Throw (JsError (welcomeErrorPrefix ++ parseErrorMessage)))
  /\ (generateContent env welcomePrompt = Return None ->
      fst (generateInitialWelcomePost env log)
      = Throw (JsError (welcomeErrorPrefix ++ undefinedTextMessage))).
Proof.
  unfold generateInitialWelcomePost, tryCatch, bind, callGenerateContent, lift, throw,
    welcomeCall.
  destruct (generateContent env welcomePrompt) as [[text|]|[m|]] eqn:Hg;
    cbn [parseResponseText].
  - destruct (parseGeminiJsonResponse text) as [content|e] eqn:Hp.
    + cbn [fst snd]. split; [reflexivity|]. split; [|split; [|split]].
      * intros c. split.
        -- intros H; inversion H; subst. eauto.
        -- intros (t & Ht & Hc). inversion Ht; subst. congruence.
      * discriminate.
      * intros t e Ht. inversion Ht; subst. congruence.
      * discriminate.
    + rewrite (parse_throw_inv _ Hp). cbn [fst snd].
      split; [reflexivity|]. split; [|split; [|split]].
      * intros c. split; [discriminate|].
        intros (t & Ht & Hc). inversion Ht; subst. congruence.
      * discriminate.
      * reflexivity.
      * discriminate.
  - cbn [fst snd]. split; [reflexivity|]. split; [|split; [|split]].
    + intros c. split; [discriminate | intros (t & Ht & _); discriminate].
    + discriminate.
    + discriminate.
    + reflexivity.
  - cbn [fst snd]. split; [reflexivity|]. split; [|split; [|split]].
    + intros c. split; [discriminate | intros (t & Ht & _); discriminate].
    + intros m' H; inversion H; reflexivity.
    + discriminate.
    + discriminate.
  - cbn [fst snd]. split; [reflexivity|]. split; [|split; [|split]].
    + intros c. split; [discriminate | intros (t & Ht & _); discriminate].
    + discriminate.
    + discriminate.
    + discriminate.
Qed.

Lemma generateInitialWelcomePost_behaviour_witness :
  (generateContent envTextBadKey welcomePrompt
     = Throw (JsError (lit "API key not valid. Please pass a valid API key.")) /\
   generateInitialWelcomePost envTextBadKey []
   = (Throw (JsError (lit "Failed to generate welcome post: API key not valid. Please pass a valid API key.")),
      [welcomeCall]))
  /\
  (generateContent envNoText welcomePrompt = Return None /\
   fst (generateInitialWelcomePost envNoText [])
   = Throw (JsError (welcomeErrorPrefix ++ undefinedTextMessage))).
Proof.
  split.
  - split; [reflexivity|].
    pose proof (@generateInitialWelcomePost_behaviour envTextBadKey [])
      as (Hlog & _ & He & _).
    specialize (He _ eq_refl).
    destruct (generateInitialWelcomePost envTextBadKey []) as [r l].
    cbn [fst snd] in *. rewrite Hlog, He. reflexivity.
  - split; [reflexivity|].
    apply (proj2 (proj2 (proj2 (proj2
             (@generateInitialWelcomePost_behaviour envNoText []))))).
    reflexivity.
Defined.

(* ================================================================= *)
(** ** Further properties of the coordinator *)

Lemma trim_allWs (s : jsstring) : allWs s = true -> trim s = [].
Proof.
  intros H. unfold trim.
  assert (E : trimStart s = []) by (apply trimStart_nil_allWs; exact H).
  rewrite E. reflexivity.
Qed.

(** X10.  A topic that is empty or white space only is refused: the
    submission changes no state and makes no call. *)
Theorem blank_topic_is_ignored (env : Env) (st : AppState) (log : list Call) :
  allWs (topic st) = true ->
  handleGeneratePost env st log = (st, log).
Proof.
  intros H. unfold handleGeneratePost, handleGeneratePost_begin.
  rewrite (trim_allWs _ H). reflexivity.
Qed.

Lemma blank_topic_is_ignored_witness :
  allWs (topic (idle (lit "   "))) = true /\
  handleGeneratePost env0 (idle (lit "   ")) [] = (idle (lit "   "), []).
Proof.
  split; [reflexivity|].
  apply (@blank_topic_is_ignored env0 (idle (lit "   ")) []). reflexivity.
Defined.

(** X11.  A generation that succeeds puts the new post in front of the
    posts there were, which stay as they are and in their order; it empties
    the topic, leaves no error (one shown before is gone) and touches
    neither the selection nor the loading flag. *)
Theorem successful_generation_prepends
  (env : Env) (st : AppState) (log log' : list Call) (data : Generated) :
  accepted st = true ->
  generateBlogPostContent env (topic st) log = (Return data, log') ->
  handleGeneratePost env st log =
  ({| posts := newPost env data :: posts st;
      selectedPost := selectedPost st;
      isLoading := isLoading st;
      error := None;
      topic := [];
      isGenerating := false |}, log').
Proof.
  intros Ha Hg. rewrite (handleGeneratePost_accepted env st log Ha), Hg. reflexivity.
Qed.

Lemma successful_generation_prepends_witness :
  (accepted (setError (Some (lit "old")) (setPosts (fun _ => [welcome]) (idle (lit "Rust"))))
     = true /\
   fst (generateBlogPostContent env0 (lit "Rust") [])
     = Return {| blogContent := BlogPostContent.Build (lit "T") (lit "C") (VString (lit "P"));
                 imageUrl := Some (lit "data:image/jpeg;base64,XYZ") |}) /\
  posts (fst (handleGeneratePost env0
                (setError (Some (lit "old")) (setPosts (fun _ => [welcome]) (idle (lit "Rust"))))
                []))
  = [ newPost env0
        {| blogContent := BlogPostContent.Build (lit "T") (lit "C") (VString (lit "P"));
           imageUrl := Some (lit "data:image/jpeg;base64,XYZ") |};
      welcome ].
Proof.
  split; [split; reflexivity|].
  rewrite (@successful_generation_prepends env0
             (setError (Some (lit "old")) (setPosts (fun _ => [welcome]) (idle (lit "Rust"))))
             [] _ _ eq_refl eq_refl).
  reflexivity.
Defined.

Lemma substring_from_zero (s : jsstring) (n : nat) : substring s 0 n = firstn n s.
Proof.
  unfold substring. cbn [Nat.min]. rewrite Nat.max_0_l, Nat.sub_0_r. cbn [skipn].
  destruct (Nat.le_ge_cases n (length s)) as [H|H].
  - rewrite Nat.min_l by exact H. reflexivity.
  - rewrite Nat.min_r by exact H. rewrite firstn_all, firstn_all2 by exact H. reflexivity.
Qed.

(** X12.  The excerpt of a post, generated or welcome: the body cut
    after 150 code units, then an ellipsis, which is there also when
    nothing was cut; so it is never longer than 153 code units and a body
    of at most 150 comes back whole. *)
Theorem excerpt_is_cut_body (env : Env) (data : Generated) (welcomeData : BlogPostContent.t) :
  let post := newPost env data in
  let first := welcomePost env welcomeData in
  excerptDerived post /\ excerptDerived first
  /\ length (BlogPost.excerpt post) = Nat.min 150 (length (BlogPost.content post)) + 3
  /\ length (BlogPost.excerpt post) <= 153
  /\ (length (BlogPost.content post) <= 150 ->
      BlogPost.excerpt post = BlogPost.content post ++ lit "...").
Proof.
  intros post first. subst post first. unfold excerptDerived, newPost, welcomePost.
  cbn [BlogPost.excerpt BlogPost.content]. rewrite !substring_from_zero.
  split; [reflexivity|]. split; [reflexivity|].
  rewrite length_app, length_firstn. cbn [length lit].
  split; [reflexivity|]. split; [change (length (lit "...")) with 3; lia|].
  intros H. rewrite firstn_all2 by exact H. reflexivity.
Qed.

Lemma excerpt_is_cut_body_witness :
  length (lit "C") <= 150 /\
  BlogPost.excerpt
    (newPost env0 {| blogContent := BlogPostContent.Build (lit "T") (lit "C") VUndefined;
                     imageUrl := None |})
  = lit "C" ++ lit "...".
Proof.
  split; [vm_compute; lia|].
  apply (proj2 (proj2 (proj2 (proj2
           (@excerpt_is_cut_body env0
              {| blogContent := BlogPostContent.Build (lit "T") (lit "C") VUndefined;
                 imageUrl := None |}
              (BlogPostContent.Build [] [] VUndefined)))))).
  vm_compute; lia.
Defined.



Lemma loadInitialPost_started
  (env : Env) (apiKey : option jsstring) (st : AppState) (log : list Call) :
  keyConfigured apiKey = true -> posts st = [] ->
  loadInitialPost env apiKey st log =
  (loadInitialPost_settle env (fst (generateInitialWelcomePost env log))
     (setError None (setIsLoading true st)),
   snd (generateInitialWelcomePost env log)).
Proof.
  intros Hk Hp. unfold loadInitialPost, loadInitialPost_begin. rewrite Hk, Hp.
  cbn [length Nat.eqb andb].
  destruct (generateInitialWelcomePost env log); reflexivity.
Qed.

(** X14.  A welcome post that cannot be generated is passed over in
    silence: the list stays empty, no error is set (one there was is
    cleared), the loading flag is cleared, and with no post selected the
    screen is the list with the empty notice and no error banner. *)
Theorem welcome_failure_is_silent
  (env : Env) (apiKey : option jsstring) (st : AppState) (log log' : list Call)
  (e : thrown) :
  keyConfigured apiKey = true -> posts st = [] ->
  generateInitialWelcomePost env log = (Throw e, log') ->
  fst (loadInitialPost env apiKey st log) =
    {| posts := []; selectedPost := selectedPost st; isLoading := false;
       error := None; topic := topic st; isGenerating := isGenerating st |}
  /\ (selectedPost st = None ->
      render (fst (loadInitialPost env apiKey st log))
      = ListScreen (formOf st) None true []).
Proof.
  intros Hk Hp Hg. rewrite (loadInitialPost_started env apiKey st log Hk Hp), Hg.
  cbn [fst]. unfold loadInitialPost_settle, setIsLoading, setError.
  cbn [posts selectedPost isLoading error topic isGenerating]. rewrite Hp.
  split; [reflexivity|].
  intros Hs. unfold render. cbn [posts selectedPost isLoading error topic isGenerating].
  rewrite Hs. reflexivity.
Qed.

Lemma welcome_failure_is_silent_witness :
  (keyConfigured (Some (lit "k")) = true /\ posts initialState = [] /\
   generateInitialWelcomePost envTextDown []
   = (Throw (JsError (lit "Failed to generate welcome post: 503 Service Unavailable")),
      [welcomeCall])) /\
  fst (loadInitialPost envTextDown (Some (lit "k")) initialState []) = initialState.
Proof.
  split; [repeat split; reflexivity|].
  apply (proj1 (@welcome_failure_is_silent envTextDown (Some (lit "k")) initialState []
                  _ _ eq_refl eq_refl eq_refl)).
Defined.

(** X15.  A welcome post that is generated becomes the whole list: one
    post with the title and body of the response, an identifier that
    starts with initial-, and no image, even when the response carried an
    image prompt; one text call was made and no image call. *)
Theorem welcome_success_sets_the_list
  (env : Env) (apiKey : option jsstring) (st : AppState) (log log' : list Call)
  (data : BlogPostContent.t) :
  keyConfigured apiKey = true -> posts st = [] ->
  generateInitialWelcomePost env log = (Return data, log') ->
  loadInitialPost env apiKey st log =
    ({| posts := [welcomePost env data]; selectedPost := selectedPost st;
        isLoading := false; error := None; topic := topic st;
        isGenerating := isGenerating st |},
     log ++ [welcomeCall])
  /\ BlogPost.imageUrl (welcomePost env data) = None
  /\ startsWith (BlogPost.id (welcomePost env data)) (lit "initial-") = true
  /\ BlogPost.title (welcomePost env data) = BlogPostContent.title data
  /\ BlogPost.content (welcomePost env data) = BlogPostContent.content data.
Proof.
  intros Hk Hp Hg. rewrite (loadInitialPost_started env apiKey st log Hk Hp).
  pose proof (generateInitialWelcomePost_log env log) as Hlog.
  rewrite Hg in *. cbn [fst snd] in *. subst log'.
  split; [reflexivity|]. split; [reflexivity|].
  split; [apply startsWith_app|]. split; reflexivity.
Qed.

Lemma welcome_success_sets_the_list_witness :
  (keyConfigured (Some (lit "k")) = true /\ posts initialState = [] /\
   generateInitialWelcomePost envWelcome []
   = (Return (BlogPostContent.Build (lit "Welcome") (lit "Happy writing!")
                                    (VString (lit "A desk"))),
      [welcomeCall])) /\
  loadInitialPost envWelcome (Some (lit "k")) initialState [] =
  ({| posts := [welcome]; selectedPost := None; isLoading := false; error := None;
      topic := []; isGenerating := false |}, [welcomeCall]).
Proof.
  split; [repeat split; reflexivity|].
  rewrite (proj1 (@welcome_success_sets_the_list envWelcome (Some (lit "k")) initialState
                    [] _ _ eq_refl eq_refl eq_refl)).
  reflexivity.
Defined.

(* ================================================================= *)
(** ** Properties of the screen *)

(** X16.  The submit button is disabled exactly when the handler would
    refuse the submission: the control and the guard agree. *)
Theorem submit_disabled_iff_refused (st : AppState) :
  submitDisabled (formOf st) = true <-> handleGeneratePost_begin st = (st, None).
Proof.
  unfold formOf, handleGeneratePost_begin. cbn [submitDisabled].
  rewrite (orb_comm (isGenerating st)).
  destruct (Nat.eqb (length (trim (topic st))) 0 || isGenerating st).
  - split; reflexivity.
  - split; [discriminate|]. intros H; inversion H.
Qed.

(** X17.  On the list screen the cards are the posts in their order; the
    error banner and the empty notice are never shown together; the notice
    is shown only with no card; and while a generation is in flight no
    banner is shown and the input is disabled. *)
Theorem list_screen_is_consistent
  (st : AppState) (form : FormView) (banner : option jsstring) (notice : bool)
  (cards : list BlogPost.t) :
  render st = ListScreen form banner notice cards ->
  cards = posts st
  /\ (banner <> None -> notice = false)
  /\ (notice = true -> cards = [])
  /\ (isGenerating st = true ->
      banner = None /\ inputDisabled form = true /\ submitDisabled form = true)
  /\ (forall message, banner = Some message -> error st = Some message /\ message <> []).
Proof.
  unfold render.
  destruct (isLoading st && Nat.eqb (length (posts st)) 0); [discriminate|].
  destruct (selectedPost st); [discriminate|].
  intros H; inversion H; subst; clear H.
  split; [reflexivity|].
  destruct (errorTruthy (error st)) eqn:He; cbn [andb negb].
  - rewrite andb_false_r.
    split; [reflexivity|]. split; [discriminate|]. split.
    + intros Hg. unfold formOf. cbn [inputDisabled submitDisabled]. rewrite Hg.
      repeat split; reflexivity.
    + destruct (isGenerating st); cbn [negb]; [discriminate|].
      intros message Hm. split; [exact Hm|].
      rewrite Hm in He. intros ->. discriminate.
  - split; [congruence|]. split.
    + rewrite andb_true_r. intros H. apply andb_true_iff in H. destruct H as [H _].
      destruct (posts st); [reflexivity | discriminate].
    + split.
      * intros Hg. unfold formOf. cbn [inputDisabled submitDisabled]. rewrite Hg.
        repeat split; reflexivity.
      * discriminate.
Qed.

Lemma list_screen_is_consistent_witness :
  render (setError (Some (lit "Gemini API error: x")) (idle (lit "Rust")))
  = ListScreen (formOf (idle (lit "Rust"))) (Some (lit "Gemini API error: x")) false [] /\
  (Some (lit "Gemini API error: x") <> None -> false = false).
Proof.
  split; [reflexivity|].
  apply (proj1 (proj2 (@list_screen_is_consistent
                         (setError (Some (lit "Gemini API error: x")) (idle (lit "Rust")))
                         _ _ _ _ eq_refl))).
Defined.

Lemma rethrown_nonempty (e : thrown) (message : jsstring) :
  rethrown e = JsError message -> message <> [].
Proof.
  destruct e as [m|]; cbn [rethrown].
  - destruct (includes m apiKeyMarker); intros H; inversion H; discriminate.
  - intros H; inversion H; discriminate.
Qed.

Lemma generateBlogPostContent_throws_rethrown
  (env : Env) (topic : jsstring) (log log' : list Call) (e : thrown) :
  generateBlogPostContent env topic log = (Throw e, log') ->
  exists e0, e = rethrown e0.
Proof.
  rewrite generateBlogPostContent_cases.
  destruct (generateContent env (blogPrompt topic)) as [text|e0].
  2:{ intros H; inversion H. eauto. }
  destruct (parseResponseText text) as [content|e0].
  2:{ intros H; inversion H. eauto. }
  destruct (truthy _); [|discriminate].
  destruct (generateImage env _ _) as [[url|e0] l]; [discriminate|].
  intros H; inversion H. eauto.
Qed.

(** X18.  Every failure of a generation is put before the user: with the
    list on the screen, the banner shows the message of the error, which
    is never empty, the topic is still in the input and the submit button
    is enabled again. *)
Theorem generation_failure_is_shown
  (env : Env) (st : AppState) (log log' : list Call) (e : thrown) :
  accepted st = true ->
  selectedPost st = None ->
  isLoading st = false ->
  generateBlogPostContent env (topic st) log = (Throw e, log') ->
  exists message,
    e = JsError message /\ message <> [] /\
    render (fst (handleGeneratePost env st log))
    = ListScreen {| inputValue := topic st; inputDisabled := false;
                    submitDisabled := false; submitLabel := lit "Generate Post" |}
                 (Some message) false (posts st).
Proof.
  intros Ha Hs Hl Hg.
  destruct (generateBlogPostContent_throws_rethrown _ _ _ Hg) as [e0 ->].
  destruct (rethrown_is_error e0) as [message Hm].
  pose proof (rethrown_nonempty _ Hm) as Hne.
  exists message. split; [exact Hm|]. split; [exact Hne|].
  rewrite (handleGeneratePost_accepted env st log Ha), Hg, Hm. cbn [fst].
  unfold accepted in Ha. apply andb_true_iff in Ha. destruct Ha as [Ht Hgen].
  apply negb_true_iff in Ht, Hgen.
  unfold render, formOf, handleGeneratePost_settle, setIsGenerating, setError.
  cbn [posts selectedPost isLoading error topic isGenerating].
  rewrite Hs, Hl, Ht. cbn [andb orb negb errorTruthy].
  destruct message as [|c m]; [contradiction|].
  cbn [length Nat.eqb negb andb]. rewrite andb_false_r. reflexivity.
Qed.

Lemma generation_failure_is_shown_witness :
  (accepted (idle (lit "Rust")) = true /\ selectedPost (idle (lit "Rust")) = None /\
   isLoading (idle (lit "Rust")) = false /\
   generateBlogPostContent envTextDown (topic (idle (lit "Rust"))) []
   = (Throw (JsError (lit "Gemini API error: 503 Service Unavailable")),
      [textCall (lit "Rust")])) /\
  exists message,
    JsError (lit "Gemini API error: 503 Service Unavailable") = JsError message /\
    message <> [] /\
    render (fst (handleGeneratePost envTextDown (idle (lit "Rust")) []))
    = ListScreen {| inputValue := lit "Rust"; inputDisabled := false;
                    submitDisabled := false; submitLabel := lit "Generate Post" |}
                 (Some message) false [].
Proof.
  split; [repeat split; reflexivity|].
  apply (@generation_failure_is_shown envTextDown (idle (lit "Rust")) [] _ _
           eq_refl eq_refl eq_refl eq_refl).
Defined.

(** X19.  Opening a card shows that post, and going back shows the list
    exactly as it was. *)
Theorem select_then_back
  (st : AppState) (form : FormView) (banner : option jsstring) (notice : bool)
  (cards : list BlogPost.t) (post : BlogPost.t) :
  render st = ListScreen form banner notice cards ->
  In post cards ->
  render (handleSelectPost post st) = DetailScreen post
  /\ handleGoBackToList (handleSelectPost post st) = st.
Proof.
  unfold render.
  destruct (isLoading st && Nat.eqb (length (posts st)) 0) eqn:Hl; [discriminate|].
  destruct (selectedPost st) eqn:Hs; [discriminate|].
  intros _ _. cbn [handleSelectPost setSelectedPost posts isLoading selectedPost].
  rewrite Hl. split; [reflexivity|].
  destruct st; cbn in *. subst. reflexivity.
Qed.

Lemma select_then_back_witness :
  (render (setPosts (fun _ => [welcome]) (idle []))
   = ListScreen (formOf (idle [])) None false [welcome] /\ In welcome [welcome]) /\
  render (handleSelectPost welcome (setPosts (fun _ => [welcome]) (idle [])))
  = DetailScreen welcome.
Proof.
  split; [split; [reflexivity | left; reflexivity]|].
  apply (proj1 (@select_then_back (setPosts (fun _ => [welcome]) (idle [])) _ _ _ _ welcome
                  eq_refl (or_introl eq_refl))).
Defined.

(* ================================================================= *)
(** ** Invariants of a session *)

Lemma newPost_excerptDerived (env : Env) (data : Generated) :
  excerptDerived (newPost env data).
Proof.
  unfold excerptDerived, newPost. cbn [BlogPost.excerpt BlogPost.content].
  rewrite substring_from_zero. reflexivity.
Qed.

Lemma welcomePost_excerptDerived (env : Env) (data : BlogPostContent.t) :
  excerptDerived (welcomePost env data).
Proof.
  unfold excerptDerived, welcomePost. cbn [BlogPost.excerpt BlogPost.content].
  rewrite substring_from_zero. reflexivity.
Qed.

Lemma render_loading (st : AppState) :
  isLoading st = true -> posts st = [] -> render st = LoadingScreen.
Proof. intros Hl Hp. unfold render. rewrite Hl, Hp. reflexivity. Qed.

Lemma submitFrom_accepted (closure current : AppState) :
  accepted closure = true ->
  submitFrom closure current
  = (setError None (setIsGenerating true current), Some (topic closure)).
Proof.
  unfold accepted, submitFrom.
  rewrite andb_true_iff, !negb_true_iff. intros [-> ->]. reflexivity.
Qed.

Lemma submitFrom_refused (closure current : AppState) :
  accepted closure = false -> submitFrom closure current = (current, None).
Proof.
  unfold accepted, submitFrom.
  destruct (Nat.eqb _ 0), (isGenerating closure); simpl; try discriminate; reflexivity.
Qed.

(** Once React has rendered, the closure reads the cells as they are. *)
Lemma submitFrom_rendered (st : AppState) :
  submitFrom st st = handleGeneratePost_begin st.
Proof. reflexivity. Qed.

Lemma submitFrom_cells (closure current : AppState) :
  posts (fst (submitFrom closure current)) = posts current
  /\ isLoading (fst (submitFrom closure current)) = isLoading current.
Proof.
  unfold submitFrom. destruct (_ || _); split; reflexivity.
Qed.

Lemma sessionInv_mount (apiKey : option jsstring) : sessionInv (mount apiKey).
Proof.
  unfold sessionInv, mount, loadInitialPost_begin.
  destruct (keyConfigured apiKey); cbn; repeat split; auto; discriminate.
Qed.

Lemma sessionInv_step (s s' : Session) :
  sessionInv s -> sessionStep s s' -> sessionInv s'.
Proof.
  intros Hinv Hstep. pose proof Hinv as (H1 & H2 & H3).
  destruct Hstep as [s
                    | s form banner notice cards Hr
                    | s form banner notice cards text Hr Hd
                    | s form banner notice cards post Hr Hin
                    | s post Hr
                    | s form message notice cards Hr
                    | s env outcome before topic after Hp
                    | s env outcome Hw];
    unfold sessionInv; cbn [commit rendered ui welcomePending generationsPending].
  - split; [exact H1|]. split; [|exact H3].
    intros Hl. destruct (H2 Hl) as (Hp & Hg & Hn & _).
    repeat split; auto. right. apply render_loading; assumption.
  - destruct (submitFrom_cells (rendered s) (ui s)) as [Ep El].
    rewrite Ep, El. split; [exact H1|]. split; [|exact H3].
    intros Hl. destruct (H2 Hl) as (Hp & Hg & Hn & [Ha | Hs]).
    + rewrite (submitFrom_refused _ (ui s) Ha). cbn [fst snd started].
      rewrite app_nil_r. auto.
    + rewrite Hs in Hr. discriminate.
  - split; [exact H1|]. split; [exact H2 | exact H3].
  - split; [exact H1|]. split; [exact H2 | exact H3].
  - split; [exact H1|]. split; [exact H2 | exact H3].
  - split; [exact H1|]. split; [exact H2 | exact H3].
  - assert (Hnl : isLoading (ui s) = false).
    { destruct (isLoading (ui s)); [|reflexivity].
      destruct (H2 eq_refl) as (_ & _ & Hn & _).
      rewrite Hn in Hp. destruct before; discriminate. }
    rewrite Hnl in H1.
    destruct outcome as [data|[m|]]; cbn; rewrite ?Hnl;
      (split; [exact H1|]); (split; [discriminate|]); try exact H3.
    constructor; [apply newPost_excerptDerived | exact H3].
  - rewrite Hw in H1. symmetry in H1. destruct (H2 H1) as (Hp & _).
    destruct outcome as [data|e]; cbn; (split; [reflexivity|]);
      (split; [discriminate|]); try exact H3.
    constructor; [apply welcomePost_excerptDerived | constructor].
Qed.

Lemma reachable_inv (apiKey : option jsstring) (s : Session) :
  reachable apiKey s -> sessionInv s.
Proof.
  induction 1 as [|s s' _ IH Hstep]; [apply sessionInv_mount|].
  exact (sessionInv_step IH Hstep).
Qed.

(** The sessions in which React renders after every event are among
    those that can be reached. *)
Lemma reachableRendering_reachable (apiKey : option jsstring) (s : Session) :
  reachableRendering apiKey s -> reachable apiKey s.
Proof.
  induction 1 as [|s s' _ IH Hstep].
  - exact (ReachStep (ReachMount apiKey) (StepRender _)).
  - exact (ReachStep (ReachStep IH Hstep) (StepRender _)).
Qed.

Lemma renderingInv_step (s s' : Session) :
  renderingInv s -> sessionStep s s' -> renderingInv (commit s').
Proof.
  intros [Hc H1] Hstep. split; [reflexivity|].
  destruct Hstep as [s
                    | s form banner notice cards Hr
                    | s form banner notice cards text Hr Hd
                    | s form banner notice cards post Hr Hin
                    | s post Hr
                    | s form message notice cards Hr
                    | s env outcome before topic after Hp
                    | s env outcome Hw];
    cbn [commit rendered ui welcomePending generationsPending]; try exact H1.
  - rewrite Hc. unfold submitFrom.
    destruct (Nat.eqb (length (trim (topic (ui s)))) 0 || isGenerating (ui s)) eqn:Hg;
      cbn [fst snd started].
    + rewrite app_nil_r. exact H1.
    + apply orb_false_iff in Hg. destruct Hg as [_ Hg]. rewrite Hg in H1.
      cbn [setError setIsGenerating isGenerating]. rewrite length_app, H1. reflexivity.
  - rewrite Hp, length_app in H1. cbn [length] in H1.
    destruct (isGenerating (ui s)); [|lia].
    assert (Hb : before = []) by (destruct before; [reflexivity | cbn in H1; lia]).
    assert (Ha : after = []) by (destruct after; [reflexivity | cbn in H1; lia]).
    subst before after. destruct outcome as [data|[m|]]; reflexivity.
  - destruct outcome as [data|e]; exact H1.
Qed.

Lemma reachableRendering_inv (apiKey : option jsstring) (s : Session) :
  reachableRendering apiKey s -> renderingInv s.
Proof.
  induction 1 as [|s s' _ IH Hstep].
  - split; [reflexivity|]. unfold mount, loadInitialPost_begin.
    destruct (keyConfigured apiKey); reflexivity.
  - exact (renderingInv_step IH Hstep).
Qed.

(** X20.  Single flight, when React renders after every event before the
    next one is handled: whatever the user does and however the calls end,
    there is never more than one generation in flight, and the flag is set
    exactly while there is one. *)
Theorem single_flight (apiKey : option jsstring) (s : Session) :
  reachableRendering apiKey s ->
  length (generationsPending s) <= 1
  /\ (isGenerating (ui s) = true <-> generationsPending s <> []).
Proof.
  intros Hr. destruct (reachableRendering_inv Hr) as [_ H1].
  rewrite H1.
  destruct (isGenerating (ui s)); destruct (generationsPending s); cbn in H1;
    try discriminate; (split; [lia|]); split; congruence.
Qed.

(** X21.  No post is ever removed, altered or reordered: each event
    leaves the list as it was or puts one post in front.  That holds of
    the arrival of the welcome post too, which replaces the list: the list
    is then still empty. *)
Theorem posts_only_grow (apiKey : option jsstring) (s s' : Session) :
  reachable apiKey s -> sessionStep s s' ->
  exists newer, posts (ui s') = newer ++ posts (ui s) /\ length newer <= 1.
Proof.
  intros Hr Hstep. pose proof (reachable_inv Hr) as (H1 & H2 & H3).
  destruct Hstep as [s
                    | s form banner notice cards Hrd
                    | s form banner notice cards text Hrd Hd
                    | s form banner notice cards post Hrd Hin
                    | s post Hrd
                    | s form message notice cards Hrd
                    | s env outcome before topic after Hp
                    | s env outcome Hw];
    cbn [commit ui].
  - exists []. split; [reflexivity | cbn; lia].
  - exists []. split; [|cbn; lia].
    exact (proj1 (submitFrom_cells (rendered s) (ui s))).
  - exists []. split; [reflexivity | cbn; lia].
  - exists []. split; [reflexivity | cbn; lia].
  - exists []. split; [reflexivity | cbn; lia].
  - exists []. split; [reflexivity | cbn; lia].
  - destruct outcome as [data|[m|]].
    + exists [newPost env data]. split; [reflexivity | cbn; lia].
    + exists []. split; [reflexivity | cbn; lia].
    + exists []. split; [reflexivity | cbn; lia].
  - rewrite Hw in H1. symmetry in H1. destruct (H2 H1) as (Hp & _).
    destruct outcome as [data|e].
    + exists [welcomePost env data]. cbn. rewrite Hp. split; [reflexivity | lia].
    + exists []. split; [reflexivity | cbn; lia].
Qed.

(** X22.  The excerpt of every post in the list is the body cut after 150
    code units followed by an ellipsis. *)
Theorem excerpts_are_derived (apiKey : option jsstring) (s : Session) :
  reachable apiKey s -> Forall excerptDerived (posts (ui s)).
Proof. intros Hr. apply (reachable_inv Hr). Qed.

(** X23.  The component renders the loading screen exactly while the
    welcome post is being loaded; during that time the list is empty and
    no generation is in flight. *)
Theorem loading_screen_iff_welcome_pending (apiKey : option jsstring) (s : Session) :
  reachable apiKey s ->
  (render (ui s) = LoadingScreen <-> welcomePending s = true)
  /\ (welcomePending s = true ->
      posts (ui s) = [] /\ generationsPending s = [] /\ isGenerating (ui s) = false).
Proof.
  intros Hr. pose proof (reachable_inv Hr) as (H1 & H2 & _).
  rewrite H1. split.
  - unfold render. split.
    + destruct (isLoading (ui s)); [reflexivity|]. cbn [andb].
      destruct (selectedPost (ui s)); discriminate.
    + intros Hl. destruct (H2 Hl) as (Hp & _). rewrite Hl, Hp. reflexivity.
  - intros Hl. destruct (H2 Hl) as (Hp & Hg & Hn & _). auto.
Qed.

Lemma welcome_not_rearmed (s s' : Session) :
  sessionStep s s' -> welcomePending s = false -> welcomePending s' = false.
Proof. intros Hstep. destruct Hstep; cbn; auto. Qed.

(** X24.  Without a configured key the welcome post is never asked for:
    at no point of the session is it pending or the loading flag set. *)
Theorem no_key_no_welcome (apiKey : option jsstring) (s : Session) :
  keyConfigured apiKey = false ->
  reachable apiKey s ->
  welcomePending s = false /\ isLoading (ui s) = false.
Proof.
  intros Hk Hr.
  assert (Hw : welcomePending s = false).
  { induction Hr as [|s s' _ IH Hstep].
    - unfold mount, loadInitialPost_begin. rewrite Hk, andb_false_r. reflexivity.
    - exact (welcome_not_rearmed Hstep IH). }
  split; [exact Hw|].
  destruct (reachable_inv Hr) as (H1 & _). congruence.
Qed.

Lemma sessionTyped_step : sessionStep (mount None) sessionTyped.
Proof.
  apply (@StepType (mount None) (formOf initialState) None true [] (lit "Rust"));
    reflexivity.
Defined.

Lemma sessionSubmitted_step : sessionStep (commit sessionTyped) sessionSubmitted.
Proof.
  apply (@StepSubmit (commit sessionTyped) (formOf (ui sessionTyped)) None true []).
  reflexivity.
Defined.

Lemma sessionRendered_reachable : reachable None (commit sessionTyped).
Proof.
  exact (ReachStep (ReachStep (ReachMount None) sessionTyped_step) (StepRender _)).
Defined.

Lemma sessionSubmitted_reachable : reachable None sessionSubmitted.
Proof. exact (ReachStep sessionRendered_reachable sessionSubmitted_step). Defined.

Lemma sessionSettled_step : sessionStep sessionSubmitted sessionSettled.
Proof.
  apply (@StepGenerationSettled sessionSubmitted env0 _ [] (lit "Rust") []). reflexivity.
Defined.

Lemma sessionSubmitted_rendering : reachableRendering None (commit sessionSubmitted).
Proof.
  apply (@RenderingStep None (commit sessionTyped) sessionSubmitted);
    [|exact sessionSubmitted_step].
  apply (@RenderingStep None (commit (mount None)) sessionTyped);
    [apply RenderingMount | exact sessionTyped_step].
Defined.

Lemma single_flight_witness :
  reachableRendering None (commit sessionSubmitted) /\
  length (generationsPending (commit sessionSubmitted)) <= 1.
Proof.
  split; [exact sessionSubmitted_rendering|].
  apply (proj1 (@single_flight None (commit sessionSubmitted) sessionSubmitted_rendering)).
Defined.

Lemma posts_only_grow_witness :
  (reachable None sessionSubmitted /\ sessionStep sessionSubmitted sessionSettled) /\
  exists newer,
    posts (ui sessionSettled) = newer ++ posts (ui sessionSubmitted) /\ length newer <= 1.
Proof.
  split; [split; [exact sessionSubmitted_reachable | exact sessionSettled_step]|].
  apply (@posts_only_grow None sessionSubmitted sessionSettled
           sessionSubmitted_reachable sessionSettled_step).
Defined.

Lemma excerpts_are_derived_witness :
  reachable None sessionSettled /\ Forall excerptDerived (posts (ui sessionSettled)).
Proof.
  assert (H : reachable None sessionSettled)
    by exact (ReachStep sessionSubmitted_reachable sessionSettled_step).
  split; [exact H|].
  apply (@excerpts_are_derived None sessionSettled H).
Defined.

Lemma loading_screen_iff_welcome_pending_witness :
  reachable (Some (lit "k")) (mount (Some (lit "k"))) /\
  (render (ui (mount (Some (lit "k")))) = LoadingScreen
   <-> welcomePending (mount (Some (lit "k"))) = true).
Proof.
  split; [apply ReachMount|].
  apply (proj1 (@loading_screen_iff_welcome_pending (Some (lit "k")) _
                  (ReachMount (Some (lit "k"))))).
Defined.

Lemma no_key_no_welcome_witness :
  (keyConfigured None = false /\ reachable None sessionSubmitted) /\
  welcomePending sessionSubmitted = false /\ isLoading (ui sessionSubmitted) = false.
Proof.
  split; [split; [reflexivity | exact sessionSubmitted_reachable]|].
  apply (@no_key_no_welcome None sessionSubmitted eq_refl sessionSubmitted_reachable).
Defined.

(* ================================================================= *)
(** ** Two corner cases *)

(** X25.  The guard reads the flag of the last render.  Two submissions
    handled before React renders again, through a form whose topic is not
    blank and which showed no generation in flight, both start a
    generation, for the same topic. *)
Theorem submissions_before_render_both_start
  (s : Session) (form : FormView) (banner : option jsstring) (notice : bool)
  (cards : list BlogPost.t) :
  render (rendered s) = ListScreen form banner notice cards ->
  accepted (rendered s) = true ->
  exists s1 s2,
    sessionStep s s1 /\ sessionStep s1 s2
    /\ generationsPending s1 = generationsPending s ++ [topic (rendered s)]
    /\ generationsPending s2
       = generationsPending s ++ [topic (rendered s); topic (rendered s)].
Proof.
  intros Hr Ha.
  pose proof (@StepSubmit s form banner notice cards Hr) as Hs1.
  rewrite (submitFrom_accepted _ (ui s) Ha) in Hs1. cbn [fst snd started] in Hs1.
  eexists. eexists. split; [exact Hs1|].
  split; [|split].
  - eapply StepSubmit. exact Hr.
  - reflexivity.
  - cbn [rendered ui generationsPending].
    rewrite (submitFrom_accepted _ _ Ha). cbn [fst snd started].
    rewrite <- app_assoc. reflexivity.
Qed.

Lemma submissions_before_render_both_start_witness :
  (reachable None (commit sessionTyped) /\
   render (rendered (commit sessionTyped))
   = ListScreen (formOf (ui sessionTyped)) None true [] /\
   accepted (rendered (commit sessionTyped)) = true) /\
  exists s1 s2,
    sessionStep (commit sessionTyped) s1 /\ sessionStep s1 s2
    /\ generationsPending s1 = [lit "Rust"]
    /\ generationsPending s2 = [lit "Rust"; lit "Rust"].
Proof.
  split; [split; [exact sessionRendered_reachable | split; reflexivity]|].
  apply (@submissions_before_render_both_start (commit sessionTyped)
           (formOf (ui sessionTyped)) None true [] eq_refl eq_refl).
Defined.

Lemma toStringThrows_truthy (v : value) : toStringThrows v = true -> truthy v = true.
Proof. destruct v; try discriminate; reflexivity. Qed.

(** X26.  An image prompt whose conversion to a string throws (an object
    with a toString key, an array that holds one) is never sent upstream:
    the generation succeeds after the text call alone, with no image
    reference. *)
Theorem unconvertible_prompt_is_skipped
  (env : Env) (topic text : jsstring) (log : list Call) (content : BlogPostContent.t) :
  generateContent env (blogPrompt topic) = Return (Some text) ->
  parseGeminiJsonResponse text = Return content ->
  toStringThrows (BlogPostContent.imagePrompt content) = true ->
  generateBlogPostContent env topic log
  = (Return {| blogContent := content; imageUrl := None |}, log ++ [textCall topic]).
Proof.
  intros Ht Hp Hc. rewrite generateBlogPostContent_cases, Ht.
  cbn [parseResponseText]. rewrite Hp, (toStringThrows_truthy _ Hc).
  rewrite (generateImage_unconvertible env _ _ (toStringThrows_truthy _ Hc) Hc).
  reflexivity.
Qed.

Lemma unconvertible_prompt_is_skipped_witness :
  (generateContent envObjectPrompt (blogPrompt (lit "Rust"))
     = Return (Some payloadObjectPrompt) /\
   parseGeminiJsonResponse payloadObjectPrompt
     = Return (BlogPostContent.Build (lit "T") (lit "C")
                 (VObject [(lit "toString", VNumber 1 0)])) /\
   toStringThrows (VObject [(lit "toString", VNumber 1 0)]) = true) /\
  generateBlogPostContent envObjectPrompt (lit "Rust") []
  = (Return {| blogContent :=
                 BlogPostContent.Build (lit "T") (lit "C")
                   (VObject [(lit "toString", VNumber 1 0)]);
               imageUrl := None |},
     [textCall (lit "Rust")]).
Proof.
  split; [repeat split; reflexivity|].
  apply (@unconvertible_prompt_is_skipped envObjectPrompt (lit "Rust")
           payloadObjectPrompt []
           (BlogPostContent.Build (lit "T") (lit "C")
              (VObject [(lit "toString", VNumber 1 0)])));
    reflexivity.
Defined.
